(** * explain-backend: the memoising handler of [POST /api/explain-sql]

    A shallow embedding of [src/server.js]: the JavaScript values a parsed
    JSON body can hold, [JSON.stringify] as the handler uses it to derive
    the cache key, the module-level [cache] (a [Map]), the construction of
    the user prompt and the handler itself, split at its single [await]. *)

From Stdlib Require Import NArith String Ascii.
From stdpp Require Import base option list gmap.

Local Open Scope N_scope.

(** ** JavaScript strings

    A JavaScript string is a sequence of UTF-16 code units. *)

Abbreviation jsstring := (list N).

(** A source literal (ASCII only in [server.js]) as code units. *)
Definition lit (s : string) : jsstring :=
  List.map N_of_ascii (list_ascii_of_string s).

Definition jsstring_eqb (a b : jsstring) : bool := bool_decide (a = b).

(** ** Values

    [express.json()] builds [req.body] with [JSON.parse], so the values the
    handler sees are JSON values; [undefined] (a missing body, a missing
    property) is [None] of [value]. *)

(** A Number as [JSON.parse] yields it. A finite one is carried by its
    [Number::toString] text (so [+0] and [-0], which both print [0], are one
    value); a literal beyond the double range such as [1e999] parses to an
    infinity. [NaN] has no JSON literal. *)
Inductive number :=
  | NumFinite (text : jsstring)
  | NumInfinity (negative : bool).

#[local] Unset Elimination Schemes.

Inductive json :=
  | JNull
  | JBool (b : bool)
  | JNum (n : number)
  | JStr (s : jsstring)
  | JArr (items : list json)
  | JObj (members : list (jsstring * json)).

#[local] Set Elimination Schemes.

Abbreviation value := (option json).

Definition undefined : value := None.

(** [ToBoolean]. *)
Definition truthy (v : value) : bool :=
  match v with
  | None => false
  | Some JNull => false
  | Some (JBool b) => b
  | Some (JNum (NumFinite t)) => negb (jsstring_eqb t (lit "0"))
  | Some (JNum (NumInfinity _)) => true
  | Some (JStr s) => negb (jsstring_eqb s [])
  | Some (JArr _) => true
  | Some (JObj _) => true
  end.

(** [a || d] with a literal [d] on the right. *)
Definition or_default (a : value) (d : json) : json :=
  match a with
  | Some x => if truthy a then x else d
  | None => d
  end.

(** [typeof v === "string"]. *)
Definition is_string (v : value) : bool :=
  match v with Some (JStr _) => true | _ => false end.

(** Own properties of an object, in the order [JSON.stringify] visits
    them. *)
Fixpoint own_property (members : list (jsstring * json)) (k : jsstring) : value :=
  match members with
  | [] => None
  | (k', x) :: rest => if jsstring_eqb k' k then Some x else own_property rest k
  end.

(** [v.k] for a property name [k] that no built-in prototype defines (the
    handler reads [sql], [challengeId], [title], [description],
    [gradeStatus], [choices], [message] and [content]): an object answers
    with its own property, every other value with [undefined]. *)
Definition get_property (v : json) (k : jsstring) : value :=
  match v with
  | JObj members => own_property members k
  | _ => None
  end.

(** ** JSON.stringify *)

Definition is_leading_surrogate (c : N) : bool := (0xD800 <=? c) && (c <=? 0xDBFF).
Definition is_trailing_surrogate (c : N) : bool := (0xDC00 <=? c) && (c <=? 0xDFFF).
Definition is_surrogate (c : N) : bool := (0xD800 <=? c) && (c <=? 0xDFFF).

Definition hex_digit (n : N) : N := if n <? 10 then 48 + n else 87 + n.

(** [UnicodeEscape]: a backslash, [u] and four lowercase hexadecimal digits. *)
Definition UnicodeEscape (c : N) : jsstring :=
  [92; 117; hex_digit (c / 4096); hex_digit ((c / 256) mod 16);
   hex_digit ((c / 16) mod 16); hex_digit (c mod 16)].

(** The body of [QuoteJSONString], code point by code point: a leading
    surrogate followed by a trailing one is one code point and is copied;
    any other surrogate is escaped. *)
Fixpoint quote_units (s : jsstring) : jsstring :=
  match s with
  | [] => []
  | c :: rest =>
      if c =? 8 then 92 :: 98 :: quote_units rest
      else if c =? 9 then 92 :: 116 :: quote_units rest
      else if c =? 10 then 92 :: 110 :: quote_units rest
      else if c =? 12 then 92 :: 102 :: quote_units rest
      else if c =? 13 then 92 :: 114 :: quote_units rest
      else if c =? 34 then 92 :: 34 :: quote_units rest
      else if c =? 92 then 92 :: 92 :: quote_units rest
      else if c <? 32 then UnicodeEscape c ++ quote_units rest
      else if is_leading_surrogate c then
        match rest with
        | d :: rest' =>
            if is_trailing_surrogate d then c :: d :: quote_units rest'
            else UnicodeEscape c ++ quote_units rest
        | [] => UnicodeEscape c ++ quote_units rest
        end
      else if is_surrogate c then UnicodeEscape c ++ quote_units rest
      else c :: quote_units rest
  end.

Definition QuoteJSONString (s : jsstring) : jsstring :=
  34 :: quote_units s ++ [34].

(** Members or elements separated by commas. *)
Fixpoint join_comma (parts : list jsstring) : jsstring :=
  match parts with
  | [] => []
  | p :: rest =>
      match rest with
      | [] => p
      | _ :: _ => p ++ 44 :: join_comma rest
      end
  end.

(** [SerializeJSONProperty] without indentation, on a value that holds no
    [undefined] and no function: a non-finite number prints [null]. *)
Fixpoint SerializeJSONProperty (v : json) : jsstring :=
  match v with
  | JNull => lit "null"
  | JBool true => lit "true"
  | JBool false => lit "false"
  | JNum (NumFinite t) => t
  | JNum (NumInfinity _) => lit "null"
  | JStr s => QuoteJSONString s
  | JArr items => 91 :: join_comma (List.map SerializeJSONProperty items) ++ [93]
  | JObj members =>
      123 :: join_comma
               (List.map (fun m => QuoteJSONString (fst m) ++ 58 :: SerializeJSONProperty (snd m))
                         members) ++ [125]
  end.

(** [JSON.stringify] of an object literal whose property values may be
    [undefined]: such a property is left out. *)
Definition serialize_member (m : jsstring * value) : option jsstring :=
  match snd m with
  | None => None
  | Some x => Some (QuoteJSONString (fst m) ++ 58 :: SerializeJSONProperty x)
  end.

Definition JSON_stringify_object (props : list (jsstring * value)) : jsstring :=
  123 :: join_comma (omap serialize_member props) ++ [125].

(** Line 40: [JSON.stringify({ sql, challengeId, title, gradeStatus })]. *)
Definition deriveKey (sql challengeId title gradeStatus : value) : jsstring :=
  JSON_stringify_object
    [(lit "sql", sql); (lit "challengeId", challengeId);
     (lit "title", title); (lit "gradeStatus", gradeStatus)].

(** ** The cache (line 24: [const cache = new Map()]) *)

Abbreviation store := (gmap jsstring json).

Definition cache_has (k : jsstring) (cache : store) : bool := bool_decide (is_Some (cache !! k)).
Definition cache_get (k : jsstring) (cache : store) : value := cache !! k.
Definition cache_set (k : jsstring) (v : json) (cache : store) : store := <[k := v]> cache.
Definition cache_size (cache : store) : nat := size cache.
Definition cache_clear (cache : store) : store := ∅.

(** The bound of line 86. *)
Definition cache_limit : nat := 1000.

(** Line 86: [if (cache.size > 1000) cache.clear()]. *)
Definition enforce_bound (cache : store) : store :=
  if decide (cache_limit < cache_size cache)%nat then cache_clear cache else cache.

(** Lines 85-86 together. *)
Definition save_to_cache (k : jsstring) (v : json) (cache : store) : store :=
  enforce_bound (cache_set k v cache).

(** ** The prompts (lines 46-68) *)

Definition nl : jsstring := [10].

Definition systemPrompt : jsstring :=
  nl ++ lit "You are an expert SQL instructor and analytics lead."
  ++ nl ++ lit "Explain the user's SQL in clear, non-technical language for someone who cares about business outcomes."
  ++ nl ++ lit "- First, summarize what the query is doing."
  ++ nl ++ lit "- Then explain how it relates to the question or scenario."
  ++ nl ++ lit "- If there is any obvious bug or inefficiency, mention it briefly."
  ++ nl ++ lit "Keep the answer under 200-250 words."
  ++ nl.

(** Whether an object has an own property [k]. *)
Definition has_own (members : list (jsstring * json)) (k : jsstring) : bool :=
  bool_decide (is_Some (own_property members k)).

(** [Array.prototype.join] with the default separator, given the texts of
    the elements. *)
Fixpoint join_texts (parts : list (option jsstring)) : option jsstring :=
  match parts with
  | [] => Some []
  | p :: rest =>
      match rest with
      | [] => p
      | _ :: _ => a ← p; b ← join_texts rest; Some (a ++ 44 :: b)
      end
  end.

(** [ToString], as a template literal applies it to a substitution; [None]
    is a thrown [TypeError]. An array prints its elements joined by commas,
    a [null] element as the empty string. A plain object prints
    [[object Object]] through [Object.prototype.toString]; an own
    [toString] property, never callable in parsed JSON, hides that method
    and leaves [OrdinaryToPrimitive] with nothing to call. *)
Fixpoint ToString (v : json) : option jsstring :=
  match v with
  | JNull => Some (lit "null")
  | JBool true => Some (lit "true")
  | JBool false => Some (lit "false")
  | JNum (NumFinite t) => Some t
  | JNum (NumInfinity false) => Some (lit "Infinity")
  | JNum (NumInfinity true) => Some (lit "-Infinity")
  | JStr s => Some s
  | JArr items =>
      join_texts
        (List.map (fun x => match x with JNull => Some [] | _ => ToString x end) items)
  | JObj members =>
      if has_own members (lit "toString") then None else Some (lit "[object Object]")
  end.

(** [x.slice(0, 500)]: strings and arrays have a [slice] method; on any
    other value [x.slice] is not a function and the call throws. *)
Definition slice_0_500 (x : json) : option json :=
  match x with
  | JStr s => Some (JStr (take 500 s))
  | JArr items => Some (JArr (take 500 items))
  | _ => None
  end.

(** Line 63: the text of [${(description || "").slice(0, 500)}]. *)
Definition description_text (description : value) : option jsstring :=
  slice_0_500 (or_default description (JStr [])) ≫= ToString.

(** Lines 55-68; [sql] is a string here. *)
Definition userPrompt (sql : jsstring) (challengeId title description gradeStatus : value)
  : option jsstring :=
  id_text ← ToString (or_default challengeId (JStr (lit "unknown")));
  title_text ← ToString (or_default title (JStr (lit "N/A")));
  descr ← description_text description;
  grade ← ToString (or_default gradeStatus (JStr (lit "N/A")));
  Some (nl ++ lit "SQL query:"
        ++ nl ++ sql
        ++ nl
        ++ nl ++ lit "Challenge context:"
        ++ nl ++ lit "- ID: " ++ id_text
        ++ nl ++ lit "- Title: " ++ title_text
        ++ nl ++ lit "- Description (may be truncated):"
        ++ nl ++ descr
        ++ nl
        ++ nl ++ lit "Grading status (if any): " ++ grade
        ++ nl
        ++ nl ++ lit "Please explain this query step by step, as if mentoring an analyst who knows basic SQL but wants to understand the logic and business meaning."
        ++ nl).

(** ** The Explanation Service ([client.chat.completions.create]) *)

(** The argument of the call, lines 70-78. *)
Record chat_request := {
  model : jsstring;
  system_content : jsstring;
  user_content : jsstring;
  temperature_tenths : N;
  max_tokens : N
}.

(** What the awaited promise settles to. *)
Inductive settled :=
  | Resolved (completion : value)
  | Rejected (err : json).

(** ** The handler (lines 31-93) *)

(** [res.status(code).json(payload)]; [res.json] alone answers 200. *)
Record response := {
  status : N;
  payload : list (jsstring * json)
}.

Definition bad_request : response :=
  {| status := 400;
     payload := [(lit "error", JStr (lit "Missing 'sql' in request body."))] |}.

(** The [catch] block, line 91. *)
Definition failed : response :=
  {| status := 500;
     payload := [(lit "error", JStr (lit "Failed to explain SQL."))] |}.

Definition cached_reply (explanation : json) : response :=
  {| status := 200;
     payload := [(lit "explanation", explanation); (lit "cached", JBool true)] |}.

Definition fresh_reply (explanation : json) : response :=
  {| status := 200; payload := [(lit "explanation", explanation)] |}.

(** Line 33: the five names bound by the destructuring pattern. *)
Record request := {
  sql : value;
  challengeId : value;
  title : value;
  description : value;
  gradeStatus : value
}.

(** [const { ... } = b]: destructuring [null] throws (and so would
    [undefined], which [or_default] never returns). *)
Definition destructure (b : json) : option request :=
  match b with
  | JNull => None
  | _ =>
      Some {| sql := get_property b (lit "sql");
              challengeId := get_property b (lit "challengeId");
              title := get_property b (lit "title");
              description := get_property b (lit "description");
              gradeStatus := get_property b (lit "gradeStatus") |}
  end.

(** Line 35, negated: [!(!sql || typeof sql !== "string")]. *)
Definition validates (r : request) : bool :=
  negb (negb (truthy (sql r)) || negb (is_string (sql r))).

Definition request_key (r : request) : jsstring :=
  deriveKey (sql r) (challengeId r) (title r) (gradeStatus r).

Definition request_prompt (r : request) : option jsstring :=
  match sql r with
  | Some (JStr q) => userPrompt q (challengeId r) (title r) (description r) (gradeStatus r)
  | _ => None
  end.

Definition completion_call (prompt : jsstring) : chat_request :=
  {| model := lit "gpt-4o-mini";
     system_content := systemPrompt;
     user_content := prompt;
     temperature_tenths := 3;
     max_tokens := 400 |}.

(** Where the handler stands when it has run up to its [await], or to a
    [return]. *)
Inductive suspended :=
  | Done (r : response)
  | AwaitCompletion (key : jsstring) (call : chat_request).

(** Lines 32-78. A [TypeError] thrown on the way lands in the [catch].
    [cache.has(key)] and [cache.get(key)] of lines 41-42 read the same
    entry, here in one lookup. *)
Definition explain_sql_begin (cache : store) (body : value) : suspended :=
  match destructure (or_default body (JObj [])) with
  | None => Done failed
  | Some r =>
      if negb (validates r) then Done bad_request
      else
        let key := request_key r in
        match cache_get key cache with
        | Some explanation => Done (cached_reply explanation)
        | None =>
            match request_prompt r with
            | None => Done failed
            | Some prompt => AwaitCompletion key (completion_call prompt)
            end
        end
  end.

(** [x?.k] and [x?.[0]]: [undefined] when [x] is [null] or [undefined]. *)
Definition optional_chain (x : value) (f : json → value) : value :=
  match x with
  | None | Some JNull => None
  | Some o => f o
  end.

(** [o[0]]. *)
Definition get_index_0 (o : json) : value :=
  match o with
  | JArr items => head items
  | JStr s => (λ c, JStr [c]) <$> head s
  | JObj members => own_property members (lit "0")
  | _ => None
  end.

(** Line 81: [completion.choices?.[0]?.message?.content]; reading
    [choices] of [null] or [undefined] throws. *)
Definition message_content (completion : value) : option value :=
  match completion with
  | None | Some JNull => None
  | Some c =>
      Some (optional_chain
              (optional_chain
                 (optional_chain (get_property c (lit "choices")) get_index_0)
                 (λ choice, get_property choice (lit "message")))
              (λ message, get_property message (lit "content")))
  end.

Definition placeholder : jsstring := lit "I couldn't generate an explanation.".

(** Lines 80-92, entered when the awaited call settles; [cache] is the
    store as it is at that moment. *)
Definition explain_sql_resume (cache : store) (key : jsstring) (outcome : settled)
  : store * response :=
  match outcome with
  | Rejected _ => (cache, failed)
  | Resolved completion =>
      match message_content completion with
      | None => (cache, failed)
      | Some content =>
          let explanation := or_default content (JStr placeholder) in
          (save_to_cache key explanation cache, fresh_reply explanation)
      end
  end.

(** One request handled with no other request in between: the store
    afterwards, the response, and the calls made to the service. *)
Definition explain_sql (service : chat_request → settled) (cache : store) (body : value)
  : store * response * list chat_request :=
  match explain_sql_begin cache body with
  | Done r => (cache, r, [])
  | AwaitCompletion key call =>
      let '(cache', r) := explain_sql_resume cache key (service call) in
      (cache', r, [call])
  end.

(** A sequence of raw [put]s, each followed by the bound check. *)
Definition save_all (entries : list (jsstring * json)) (cache : store) : store :=
  foldl (λ c e, save_to_cache e.1 e.2 c) cache entries.

(** ** The rest of the application *)

(** Lines 27-29: the health check. *)
Definition health : response :=
  {| status := 200;
     payload := [(lit "ok", JBool true);
                 (lit "message", JStr (lit "SQL Dojo explain backend is running."))] |}.

(** The two routes the application defines. *)
Inductive http_request :=
  | GetRoot
  | PostExplainSql (body : value).

Definition handle_request (service : chat_request → settled) (cache : store) (req : http_request)
  : store * response * list chat_request :=
  match req with
  | GetRoot => (cache, health, [])
  | PostExplainSql body => explain_sql service cache body
  end.

(** Requests handled one after the other, each with the way the service
    answers while it is handled. *)
Definition serve_trace (trace : list (http_request * (chat_request → settled))) (cache : store)
  : store :=
  foldl (λ c step, (handle_request (snd step) c (fst step)).1.1) cache trace.

(** Lines 5-9 and 95-99: what the process does when it is started with the
    environment [env]. An environment variable is a string or is unset. *)
Inductive boot :=
  | Exit (code : N)
  | Listen (port : json) (cache : store).

Definition startup (env : gmap jsstring jsstring) : boot :=
  if negb (truthy (JStr <$> env !! lit "OPENAI_API_KEY")) then Exit 1
  else Listen (or_default (JStr <$> env !! lit "PORT") (JNum (NumFinite (lit "3000")))) ∅.

(** ** Auxiliary definitions used in the statements *)

(** Requests [{ sql: s_i }] with pairwise distinct one-unit texts [s_i],
    the keys derived from them, and the entries they leave in the store
    when the service returns no content. *)
Definition numbered_sql (i : nat) : jsstring := [256 + N.of_nat i].

Definition numbered_body (i : nat) : value :=
  Some (JObj [(lit "sql", JStr (numbered_sql i))]).

Definition numbered_key (i : nat) : jsstring :=
  [123] ++ QuoteJSONString (lit "sql") ++ [58; 34; 256 + N.of_nat i; 34; 125].

Definition numbered_entries (n : nat) : list (jsstring * json) :=
  (λ i, (numbered_key i, JStr placeholder)) <$> seq 0 n.

(** Requests served one after the other, each to its end before the next. *)
Definition serve_all (service : chat_request → settled) (bodies : list value)
    (cache : store) : store :=
  foldl (λ c body, (explain_sql service c body).1.1) cache bodies.

(** The key the handler derives for a body, if validation lets it through. *)
Definition key_of_body (body : value) : option jsstring :=
  r ← destructure (or_default body (JObj []));
  if validates r then Some (request_key r) else None.

(** [body.k], with a missing body answering [undefined]. *)
Definition body_property (body : value) (k : jsstring) : value :=
  b ← body; get_property b k.

(** A body that is a plain object (not an array, not a primitive). *)
Definition is_plain_object (body : value) : bool :=
  match body with Some (JObj _) => true | _ => false end.

(** The body of the spec's cache-hit example, with a description added. *)
Definition select_1_body (descr : string) : value :=
  Some (JObj [(lit "sql", JStr (lit "SELECT 1")); (lit "challengeId", JStr (lit "c1"));
              (lit "title", JStr (lit "t")); (lit "description", JStr (lit descr));
              (lit "gradeStatus", JStr (lit "passed"))]).

Definition select_1_key : jsstring :=
  [123] ++ QuoteJSONString (lit "sql") ++ [58] ++ QuoteJSONString (lit "SELECT 1")
  ++ [44] ++ QuoteJSONString (lit "challengeId") ++ [58] ++ QuoteJSONString (lit "c1")
  ++ [44] ++ QuoteJSONString (lit "title") ++ [58] ++ QuoteJSONString (lit "t")
  ++ [44] ++ QuoteJSONString (lit "gradeStatus") ++ [58] ++ QuoteJSONString (lit "passed")
  ++ [125].

(** A service whose every call rejects. *)
Definition always_rejects (call : chat_request) : settled := Rejected JNull.


(** A completion with no choice in it. *)
Definition no_choices (call : chat_request) : settled :=
  Resolved (Some (JObj [(lit "choices", JArr [])])).

(** The store after the first [n] numbered requests have been served. *)
Definition numbered_cache (n : nat) : store :=
  serve_all no_choices (numbered_body <$> seq 0 n) ∅.

(** A body with nothing but [sql], and its key. *)
Definition select_1_only : value := Some (JObj [(lit "sql", JStr (lit "SELECT 1"))]).

Definition select_1_only_key : jsstring :=
  [123] ++ QuoteJSONString (lit "sql") ++ [58] ++ QuoteJSONString (lit "SELECT 1") ++ [125].

(** Reading back a hexadecimal digit and a two-character escape. *)
Definition unhex_digit (h : N) : N := if h <? 58 then h - 48 else h - 87.

Definition unescape (e : N) : option N :=
  if e =? 98 then Some 8
  else if e =? 116 then Some 9
  else if e =? 110 then Some 10
  else if e =? 102 then Some 12
  else if e =? 114 then Some 13
  else if e =? 34 then Some 34
  else if e =? 92 then Some 92
  else None.

(** The inverse of [QuoteJSONString]'s escaping, used only to show that no
    two strings are quoted alike: it reads up to the closing quote and
    returns the string read and what follows the quote. *)
Fixpoint unquote_units (input : jsstring) : option (jsstring * jsstring) :=
  match input with
  | [] => None
  | c :: rest =>
      if c =? 34 then Some ([], rest)
      else if c =? 92 then
        match rest with
        | [] => None
        | e :: rest1 =>
            if e =? 117 then
              match rest1 with
              | h1 :: h2 :: h3 :: h4 :: rest2 =>
                  '(s, r) ← unquote_units rest2;
                  Some (4096 * unhex_digit h1 + 256 * unhex_digit h2
                        + 16 * unhex_digit h3 + unhex_digit h4 :: s, r)
              | _ => None
              end
            else
              c' ← unescape e;
              '(s, r) ← unquote_units rest1;
              Some (c' :: s, r)
        end
      else
        '(s, r) ← unquote_units rest;
        Some (c :: s, r)
  end.

(** What can follow a value inside serialized JSON: a comma, a closing
    bracket or a closing brace. *)
Definition is_delimiter (c : N) : bool := (c =? 44) || (c =? 93) || (c =? 125).

(** The code units [Number::toString] prints for a finite number: digits,
    the signs, the point and [e]. *)
Definition numeric_unit (c : N) : bool :=
  ((48 <=? c) && (c <=? 57)) || (c =? 43) || (c =? 45) || (c =? 46) || (c =? 101).

Definition numeric_text (t : jsstring) : bool :=
  match t with
  | [] => false
  | _ :: _ => forallb numeric_unit t
  end.

(** JSON values in which every number is finite, that is, carried by the
    text [Number::toString] prints for it. *)
Fixpoint finite_numbers (v : json) : bool :=
  match v with
  | JNum (NumFinite t) => numeric_text t
  | JNum (NumInfinity _) => false
  | JArr items => forallb finite_numbers items
  | JObj members => forallb (λ m, finite_numbers (snd m)) members
  | _ => true
  end.

Definition finite_numbers_value (v : value) : bool :=
  match v with Some x => finite_numbers x | None => true end.

(** [x] is read back from any text that starts with its encoding followed
    by a delimiter. *)
Definition delimited {A : Type} (enc : A → jsstring) (ok : A → Prop) (x : A) : Prop :=
  ∀ y d d' R R', ok y → is_delimiter d = true → is_delimiter d' = true →
    enc x ++ d :: R = enc y ++ d' :: R' → x = y ∧ d :: R = d' :: R'.

(** Induction on [json] with the hypotheses for the elements of an array
    and the member values of an object. *)
Fixpoint json_nested_ind (P : json → Prop)
    (HNull : P JNull) (HBool : ∀ b, P (JBool b)) (HNum : ∀ n, P (JNum n))
    (HStr : ∀ s, P (JStr s))
    (HArr : ∀ items, Forall P items → P (JArr items))
    (HObj : ∀ members, Forall (λ m, P (snd m)) members → P (JObj members))
    (v : json) : P v :=
  match v with
  | JNull => HNull
  | JBool b => HBool b
  | JNum n => HNum n
  | JStr s => HStr s
  | JArr items =>
      HArr items
        ((fix all (l : list json) : Forall P l :=
            match l with
            | [] => @List.Forall_nil _ _
            | x :: l' =>
                @List.Forall_cons _ _ x l'
                  (json_nested_ind P HNull HBool HNum HStr HArr HObj x) (all l')
            end) items)
  | JObj members =>
      HObj members
        ((fix all (l : list (jsstring * json)) : Forall (λ m, P (snd m)) l :=
            match l with
            | [] => @List.Forall_nil _ _
            | m :: l' =>
                @List.Forall_cons _ _ m l'
                  (json_nested_ind P HNull HBool HNum HStr HArr HObj (snd m)) (all l')
            end) members)
  end.

(** One member of a serialized object: the quoted name, a colon, the value. *)
Definition serialize_pair (m : jsstring * json) : jsstring :=
  QuoteJSONString (fst m) ++ 58 :: SerializeJSONProperty (snd m).

(** The properties of an object literal that [JSON.stringify] prints. *)
Definition present (props : list (jsstring * value)) : list (jsstring * json) :=
  omap (λ m, (λ x, (fst m, x)) <$> snd m) props.

(** What every entry of the store looks like: the key is the key of a
    request with a non-empty [sql] string, the value is truthy. *)
Definition entry_ok (k : jsstring) (v : json) : Prop :=
  truthy (Some v) = true
  ∧ ∃ q c t g, q ≠ [] ∧ k = deriveKey (Some (JStr q)) c t g.

(** Two values that [||] does not tell apart. *)
Definition same_or_both_falsy (a b : value) : Prop :=
  a = b ∨ (truthy a = false ∧ truthy b = false).

(** A body whose optional fields are present but falsy. *)
Definition falsy_fields_body : value :=
  Some (JObj [(lit "sql", JStr (lit "SELECT 1")); (lit "challengeId", JNull);
              (lit "title", JStr []); (lit "gradeStatus", JBool false)]).

(** Whether a request is one to the explain route. *)
Definition is_explain_request (step : http_request * (chat_request → settled)) : bool :=
  match fst step with
  | GetRoot => false
  | PostExplainSql _ => true
  end.

(** A body with a finite number, or the string of its digits, as
    [challengeId]. *)
Definition challenge_body (id : json) : value :=
  Some (JObj [(lit "sql", JStr (lit "SELECT 1")); (lit "challengeId", id)]).

(** A completion whose one choice carries [text] as its message content,
    and a service that always resolves with such a completion. *)
Definition one_choice (text : jsstring) : json :=
  JObj [(lit "choices",
         JArr [JObj [(lit "message",
                      JObj [(lit "role", JStr (lit "assistant"));
                            (lit "content", JStr text)])]])].

Definition always_explains (call : chat_request) : settled :=
  Resolved (Some (one_choice (lit "It selects one."))).

(** * Properties *)

(** ** The cache *)

Section Cache.
Implicit Types (cache : store) (k : jsstring) (v : json).

Lemma cache_has_get k cache : cache_has k cache = true ↔ is_Some (cache_get k cache).
Proof. unfold cache_has, cache_get. by rewrite bool_decide_eq_true. Qed.

Lemma enforce_bound_small cache :
  (cache_size cache ≤ cache_limit)%nat → enforce_bound cache = cache.
Proof. intros Hle. unfold enforce_bound. case_decide; [lia | done]. Qed.

Lemma enforce_bound_large cache :
  (cache_limit < cache_size cache)%nat → enforce_bound cache = ∅.
Proof. intros Hlt. unfold enforce_bound. case_decide; [done | lia]. Qed.

Lemma enforce_bound_size cache : (cache_size (enforce_bound cache) ≤ cache_limit)%nat.
Proof.
  unfold enforce_bound. case_decide as Hc.
  - unfold cache_clear, cache_size. rewrite map_size_empty. lia.
  - lia.
Qed.

Lemma cache_set_then_get k v cache : cache_get k (cache_set k v cache) = Some v.
Proof. unfold cache_get, cache_set. apply lookup_insert_eq. Qed.

Lemma cache_set_size_fresh k v cache :
  cache !! k = None → cache_size (cache_set k v cache) = S (cache_size cache).
Proof. intros Hk. unfold cache_size, cache_set. by apply map_size_insert_None. Qed.


Lemma save_to_cache_overflow k v cache :
  (cache_limit < cache_size (cache_set k v cache))%nat → save_to_cache k v cache = ∅.
Proof. intros Hlt. unfold save_to_cache. by apply enforce_bound_large. Qed.

Lemma save_all_snoc entries k v cache :
  save_all (entries ++ [(k, v)]) cache = save_to_cache k v (save_all entries cache).
Proof. unfold save_all. by rewrite foldl_app. Qed.

(** While the bound is not exceeded, distinct keys pile up one by one. *)
Lemma save_all_below_bound entries : ∀ cache,
  NoDup entries.*1 →
  (∀ k, k ∈ entries.*1 → cache !! k = None) →
  (cache_size cache + length entries ≤ cache_limit)%nat →
  cache_size (save_all entries cache) = (cache_size cache + length entries)%nat
  ∧ ∀ k, k ∉ entries.*1 → save_all entries cache !! k = cache !! k.
Proof.
  induction entries as [|[k v] entries IH]; intros cache Hnd Hfresh Hlen.
  - simpl. split; [lia | done].
  - simpl in *. apply NoDup_cons in Hnd as [Hk Hnd].
    assert (cache !! k = None) as Hnone by (apply Hfresh; left).
    assert (save_to_cache k v cache = cache_set k v cache) as Hsave.
    { unfold save_to_cache. apply enforce_bound_small.
      rewrite cache_set_size_fresh by done. lia. }
    change (save_all ((k, v) :: entries) cache)
      with (save_all entries (save_to_cache k v cache)).
    rewrite Hsave.
    destruct (IH (cache_set k v cache)) as [Hsize Hother].
    + done.
    + intros k' Hk'. unfold cache_set. rewrite lookup_insert_ne.
      * apply Hfresh. by right.
      * intros ->. done.
    + rewrite cache_set_size_fresh by done. lia.
    + split.
      * rewrite Hsize, cache_set_size_fresh by done. lia.
      * intros k' Hk'. rewrite Hother.
        -- unfold cache_set. apply lookup_insert_ne. intros ->. apply Hk'. left.
        -- intros Hin. apply Hk'. by right.
Qed.

(** The store never holds more than 1000 entries between requests. *)
Lemma save_all_bounded entries cache :
  (cache_size cache ≤ cache_limit)%nat → (cache_size (save_all entries cache) ≤ cache_limit)%nat.
Proof.
  revert cache. induction entries as [|[k v] entries IH]; intros cache Hle; [done|].
  apply IH. unfold save_to_cache. apply enforce_bound_size.
Qed.
End Cache.

(** [C5], amended. [cache.set(k, v)] (line 85) followed immediately by
    [get(k)] returns [v], whatever the store held before. After the whole
    put of lines 85-86 (the set, then the bound check) [get(k)] returns [v]
    exactly when the set left at most 1000 entries, and finds nothing when
    it made 1001 and the store was cleared. *)
Theorem put_then_get (k : jsstring) (v : json) (cache : store) :
  cache_get k (cache_set k v cache) = Some v
  ∧ cache_get k (save_to_cache k v cache) =
      if decide (1000 < cache_size (cache_set k v cache))%nat then undefined else Some v.
Proof.
  split; [apply cache_set_then_get|].
  unfold save_to_cache, enforce_bound. change 1000%nat with cache_limit.
  case_decide; [apply lookup_empty | apply cache_set_then_get].
Qed.

(** [C1] After a put that takes the entry count above 1000 the store is
    cleared as a whole. Of 1001 puts with distinct keys into the empty
    store, the first 1000 are all kept; the 1001st [cache.set] makes 1001
    entries, and when its bound check has run the store is empty: size 0,
    the newest entry gone with the rest. *)
Theorem overflow_clears_all (entries : list (jsstring * json)) (k : jsstring) (v : json) :
  NoDup (entries ++ [(k, v)]).*1 →
  length entries = 1000%nat →
  cache_size (save_all entries ∅) = 1000%nat
  ∧ cache_size (cache_set k v (save_all entries ∅)) = 1001%nat
  ∧ save_all (entries ++ [(k, v)]) ∅ = ∅
  ∧ cache_size (save_all (entries ++ [(k, v)]) ∅) = 0%nat
  ∧ ∀ cache k' v',
      save_to_cache k' v' cache =
        if decide (1000 < cache_size (cache_set k' v' cache))%nat then ∅
        else cache_set k' v' cache.
Proof.
  change 1001%nat with (S cache_limit). change 1000%nat with cache_limit.
  intros Hnd Hlen. rewrite fmap_app in Hnd. apply NoDup_app in Hnd as (Hnd & Hk & _).
  destruct (save_all_below_bound entries ∅) as [Hsize Hother].
  - done.
  - intros. apply lookup_empty.
  - unfold cache_size. rewrite map_size_empty. lia.
  - unfold cache_size at 2 in Hsize. rewrite map_size_empty in Hsize.
    assert (save_all entries ∅ !! k = None) as Hfresh.
    { rewrite Hother; [apply lookup_empty|]. intros Hin. apply (Hk k Hin). simpl. left. }
    assert (cache_size (cache_set k v (save_all entries ∅)) = S cache_limit) as Hover.
    { rewrite cache_set_size_fresh by done. lia. }
    assert (save_all (entries ++ [(k, v)]) ∅ = ∅) as Hclear.
    { rewrite save_all_snoc. apply save_to_cache_overflow. lia. }
    split; [lia|]. split; [done|]. split; [done|]. split.
    + rewrite Hclear. unfold cache_size. apply map_size_empty.
    + intros cache k' v'. unfold save_to_cache, enforce_bound. by case_decide.
Qed.

Lemma numbered_key_inj i j : numbered_key i = numbered_key j → i = j.
Proof. unfold numbered_key. intros Heq. simplify_list_eq. lia. Qed.

Lemma numbered_entries_NoDup n : NoDup (numbered_entries n).*1.
Proof.
  unfold numbered_entries. rewrite <- list_fmap_compose.
  apply NoDup_fmap_2; [|apply NoDup_seq].
  intros i j Hij. by apply numbered_key_inj.
Qed.

Lemma overflow_clears_all_witness :
  NoDup (numbered_entries 1000 ++ [(numbered_key 1000, JStr placeholder)]).*1
  ∧ length (numbered_entries 1000) = 1000%nat
  ∧ cache_size
      (save_all (numbered_entries 1000 ++ [(numbered_key 1000, JStr placeholder)]) ∅)
    = 0%nat.
Proof.
  assert (NoDup (numbered_entries 1000 ++ [(numbered_key 1000, JStr placeholder)]).*1)
    as Hnd.
  { change (numbered_entries 1000 ++ [(numbered_key 1000, JStr placeholder)])
      with (numbered_entries 1001).
    apply numbered_entries_NoDup. }
  assert (length (numbered_entries 1000) = 1000%nat) as Hlen by reflexivity.
  split; [exact Hnd|]. split; [exact Hlen|].
  exact (proj1 (proj2 (proj2 (proj2
           (overflow_clears_all (numbered_entries 1000) (numbered_key 1000)
              (JStr placeholder) Hnd Hlen))))).
Defined.

(** ** The handler up to its [await] *)

Section Handler.
Implicit Types (cache : store) (body : value) (r : request).

Lemma or_default_not_null body : or_default body (JObj []) ≠ JNull.
Proof. destruct body as [[| | | | |]|]; simpl; try done; by case_match. Qed.

Lemma get_property_coalesced body k :
  get_property (or_default body (JObj [])) k = body_property body k.
Proof.
  destruct body as [[|b|n|s|items|members]|]; simpl; try done; by case_match.
Qed.

(** Destructuring the coalesced body never throws. *)
Lemma destructure_coalesced body :
  destructure (or_default body (JObj [])) =
  Some {| sql := body_property body (lit "sql");
          challengeId := body_property body (lit "challengeId");
          title := body_property body (lit "title");
          description := body_property body (lit "description");
          gradeStatus := body_property body (lit "gradeStatus") |}.
Proof.
  rewrite <- !get_property_coalesced.
  pose proof (or_default_not_null body) as Hnn.
  by destruct (or_default body (JObj [])).
Qed.

Lemma validates_true r :
  validates r = true ↔ ∃ q, sql r = Some (JStr q) ∧ q ≠ [].
Proof.
  unfold validates. destruct (sql r) as [[|b|n|s|items|members]|] eqn:Hsql; simpl.
  all: try (split; [done | by intros (q & ? & ?)]).
  - destruct b; (split; [done | by intros (q & ? & ?)]).
  - destruct n; rewrite ?orb_true_r; (split; [done | by intros (q & ? & ?)]).
  - rewrite orb_false_r, negb_involutive. unfold jsstring_eqb.
    rewrite negb_true_iff, bool_decide_eq_false. split.
    + intros Hs. by exists s.
    + intros (q & [= ->] & Hq). done.
Qed.

Lemma validates_false r :
  validates r = false ↔ is_string (sql r) = false ∨ sql r = Some (JStr []).
Proof.
  rewrite <- not_true_iff_false, validates_true. split.
  - intros Hno. destruct (sql r) as [[|b|n|s|items|members]|]; simpl; auto.
    destruct s as [|c s]; [by right|]. exfalso. apply Hno. by eexists.
  - intros [Hs | Hs] (q & Hq & Hne); rewrite Hq in Hs; [done|]. by injection Hs.
Qed.

Lemma begin_invalid cache body r :
  destructure (or_default body (JObj [])) = Some r →
  validates r = false →
  explain_sql_begin cache body = Done bad_request.
Proof. intros Hr Hv. unfold explain_sql_begin. by rewrite Hr, Hv. Qed.

Lemma begin_valid cache body r :
  destructure (or_default body (JObj [])) = Some r →
  validates r = true →
  explain_sql_begin cache body =
  match cache_get (request_key r) cache with
  | Some explanation => Done (cached_reply explanation)
  | None =>
      match request_prompt r with
      | None => Done failed
      | Some prompt => AwaitCompletion (request_key r) (completion_call prompt)
      end
  end.
Proof. intros Hr Hv. unfold explain_sql_begin. by rewrite Hr, Hv. Qed.

(** Whenever the handler reaches its [await], the key it carries is the
    one derived from the body. *)
Lemma begin_await_key cache body key call :
  explain_sql_begin cache body = AwaitCompletion key call →
  key_of_body body = Some key ∧ cache_get key cache = None.
Proof.
  unfold explain_sql_begin, key_of_body. rewrite destructure_coalesced. simpl.
  set (r := Build_request _ _ _ _ _).
  destruct (validates r); simpl; [|done].
  destruct (cache_get (request_key r) cache) eqn:Hget; [done|].
  destruct (request_prompt r); [|done].
  by intros [= <- _].
Qed.


Lemma resume_status cache key outcome :
  status (explain_sql_resume cache key outcome).2 = 200 ∨
  status (explain_sql_resume cache key outcome).2 = 500.
Proof.
  destruct outcome as [completion|err]; simpl; [|by right].
  destruct (message_content completion); simpl; [by left | by right].
Qed.
End Handler.

(** [C2] A request whose derived key is in the store is answered with the
    stored explanation and [cached: true], the store is left as it was and
    the service is not called. On a miss the handler goes to the service
    whenever the prompt can be built; when the call resolves, the request
    is answered 200 with the explanation alone (the content, or the
    placeholder), with no [cached] property, after that one call; and no
    200 on a miss arises in any other way. *)
Theorem cache_hit_skips_service
    (service : chat_request → settled) (cache : store) (body : value) (key : jsstring) :
  key_of_body body = Some key →
  match cache_get key cache with
  | Some explanation =>
      cache_has key cache = true
      ∧ explain_sql service cache body = (cache, cached_reply explanation, [])
      ∧ payload (cached_reply explanation) =
          [(lit "explanation", explanation); (lit "cached", JBool true)]
  | None =>
      cache_has key cache = false
      ∧ (∀ cache' reply calls,
          explain_sql service cache body = (cache', reply, calls) →
          status reply = 200 →
          ∃ call completion content,
            calls = [call]
            ∧ service call = Resolved completion
            ∧ message_content completion = Some content
            ∧ payload reply = [(lit "explanation", or_default content (JStr placeholder))]
            ∧ own_property (payload reply) (lit "cached") = None)
      ∧ (∀ q prompt,
          body_property body (lit "sql") = Some (JStr q) →
          userPrompt q (body_property body (lit "challengeId"))
            (body_property body (lit "title")) (body_property body (lit "description"))
            (body_property body (lit "gradeStatus")) = Some prompt →
          explain_sql_begin cache body = AwaitCompletion key (completion_call prompt))
      ∧ (∀ call completion content,
          explain_sql_begin cache body = AwaitCompletion key call →
          service call = Resolved completion →
          message_content completion = Some content →
          explain_sql service cache body
          = (save_to_cache key (or_default content (JStr placeholder)) cache,
             fresh_reply (or_default content (JStr placeholder)), [call])
          ∧ status (fresh_reply (or_default content (JStr placeholder))) = 200
          ∧ payload (fresh_reply (or_default content (JStr placeholder)))
            = [(lit "explanation", or_default content (JStr placeholder))]
          ∧ own_property (payload (fresh_reply (or_default content (JStr placeholder))))
              (lit "cached") = None)
  end.
Proof.
  unfold key_of_body. rewrite destructure_coalesced. simpl.
  set (r := Build_request _ _ _ _ _).
  destruct (validates r) eqn:Hv; [|done]. intros [= <-].
  pose proof (begin_valid cache body r (destructure_coalesced body) Hv) as Hbegin.
  destruct (cache_get (request_key r) cache) as [explanation|] eqn:Hget.
  - split; [|split; [|done]].
    + apply cache_has_get. by rewrite Hget.
    + unfold explain_sql. by rewrite Hbegin.
  - split; [|split; [|split]].
    + apply not_true_iff_false. rewrite cache_has_get, Hget. by intros [? ?].
    + intros cache' reply calls Hrun Hok. unfold explain_sql in Hrun.
      rewrite Hbegin in Hrun. destruct (request_prompt r) as [prompt|].
      * destruct (service (completion_call prompt)) as [completion|err] eqn:Hcall;
          simpl in Hrun.
        -- destruct (message_content completion) as [content|] eqn:Hcontent;
             simpl in Hrun.
           ++ injection Hrun as <- <- <-. by eexists _, completion, content.
           ++ injection Hrun as <- <- <-. done.
        -- injection Hrun as <- <- <-. done.
      * injection Hrun as <- <- <-. done.
    + intros q prompt Hq Hprompt. rewrite Hbegin.
      unfold request_prompt. cbn [sql challengeId title description gradeStatus r].
      by rewrite Hq, Hprompt.
    + intros call completion content Hawait Hcall Hcontent.
      unfold explain_sql. rewrite Hawait, Hcall. cbn [explain_sql_resume].
      rewrite Hcontent. done.
Qed.

Lemma cache_hit_skips_service_witness :
  key_of_body (select_1_body "d") = Some select_1_key
  ∧ explain_sql always_rejects {[ select_1_key := JStr (lit "It selects one.") ]}
      (select_1_body "d")
    = ({[ select_1_key := JStr (lit "It selects one.") ]},
       cached_reply (JStr (lit "It selects one.")), [])
  ∧ ∃ call,
      explain_sql_begin ∅ (select_1_body "d") = AwaitCompletion select_1_key call
      ∧ explain_sql always_explains ∅ (select_1_body "d")
        = (save_to_cache select_1_key (JStr (lit "It selects one.")) ∅,
           fresh_reply (JStr (lit "It selects one.")), [call]).
Proof.
  split; [reflexivity|]. split.
  - pose proof (cache_hit_skips_service always_rejects
                  {[ select_1_key := JStr (lit "It selects one.") ]}
                  (select_1_body "d") select_1_key eq_refl) as Hhit.
    unfold cache_get in Hhit. rewrite lookup_singleton_eq in Hhit.
    exact (proj1 (proj2 Hhit)).
  - pose proof (cache_hit_skips_service always_explains ∅
                  (select_1_body "d") select_1_key eq_refl) as Hmiss.
    unfold cache_get in Hmiss. rewrite lookup_empty in Hmiss.
    destruct Hmiss as (_ & _ & Hreach & Hanswer).
    assert (∃ prompt,
              userPrompt (lit "SELECT 1") (Some (JStr (lit "c1"))) (Some (JStr (lit "t")))
                (Some (JStr (lit "d"))) (Some (JStr (lit "passed"))) = Some prompt)
      as [prompt Hprompt] by (eexists; reflexivity).
    pose proof (Hreach (lit "SELECT 1") prompt eq_refl Hprompt) as Hawait.
    exists (completion_call prompt). split; [exact Hawait|].
    exact (proj1 (Hanswer (completion_call prompt)
                    (Some (one_choice (lit "It selects one.")))
                    (Some (JStr (lit "It selects one."))) Hawait eq_refl eq_refl)).
Defined.

(** [C3] Two bodies whose [sql], [challengeId], [title] and [gradeStatus]
    agree derive the same key (or are both turned away before a key is
    derived), however their [description]s differ. *)
Theorem key_ignores_description (body1 body2 : value) :
  body_property body1 (lit "sql") = body_property body2 (lit "sql") →
  body_property body1 (lit "challengeId") = body_property body2 (lit "challengeId") →
  body_property body1 (lit "title") = body_property body2 (lit "title") →
  body_property body1 (lit "gradeStatus") = body_property body2 (lit "gradeStatus") →
  key_of_body body1 = key_of_body body2.
Proof.
  intros Hsql Hid Htitle Hgrade. unfold key_of_body.
  rewrite !destructure_coalesced. simpl.
  unfold validates, request_key. simpl. by rewrite Hsql, Hid, Htitle, Hgrade.
Qed.

Lemma key_ignores_description_witness :
  body_property (select_1_body "one text") (lit "description")
    ≠ body_property (select_1_body "another") (lit "description")
  ∧ key_of_body (select_1_body "one text") = key_of_body (select_1_body "another")
  ∧ key_of_body (select_1_body "one text") = Some select_1_key.
Proof.
  split; [by vm_compute|]. split; [|reflexivity].
  apply (key_ignores_description (select_1_body "one text") (select_1_body "another"));
    reflexivity.
Defined.

(** [C7] When the awaited call rejects, the answer is the fixed 500 body
    [{ error: "Failed to explain SQL." }], the same for every error value;
    the service was called once and not again; and the store is the one the
    request found, both in a run on its own and for any store state at the
    moment the handler resumes. *)
Theorem upstream_failure_is_generic
    (service : chat_request → settled) (cache : store) (body : value)
    (key : jsstring) (call : chat_request) (err : json) :
  explain_sql_begin cache body = AwaitCompletion key call →
  service call = Rejected err →
  explain_sql service cache body = (cache, failed, [call])
  ∧ status failed = 500
  ∧ payload failed = [(lit "error", JStr (lit "Failed to explain SQL."))]
  ∧ ∀ cache_then err', explain_sql_resume cache_then key (Rejected err') = (cache_then, failed).
Proof.
  intros Hbegin Hcall. unfold explain_sql. rewrite Hbegin, Hcall. by simpl.
Qed.

Lemma upstream_failure_is_generic_witness :
  explain_sql always_rejects ∅ (select_1_body "d")
  = (∅, failed, [completion_call (default [] (request_prompt
       {| sql := Some (JStr (lit "SELECT 1")); challengeId := Some (JStr (lit "c1"));
          title := Some (JStr (lit "t")); description := Some (JStr (lit "d"));
          gradeStatus := Some (JStr (lit "passed")) |}))]).
Proof.
  refine (proj1 (upstream_failure_is_generic always_rejects ∅ (select_1_body "d")
                   select_1_key _ JNull _ _)); reflexivity.
Defined.

(** [C10] A body that is missing or is not a plain object never reaches the
    [catch]: destructuring cannot throw (a falsy body, the missing one
    included, has been replaced by [{}]), [sql] comes out [undefined], and
    the answer is the 400 of a body without [sql], with the store untouched
    and no call made. *)
Theorem missing_body_is_rejected
    (service : chat_request → settled) (cache : store) (body : value) :
  is_plain_object body = false →
  explain_sql service cache body = (cache, bad_request, [])
  ∧ explain_sql service cache body = explain_sql service cache (Some (JObj []))
  ∧ (∀ members, own_property members (lit "sql") = None →
       explain_sql service cache body = explain_sql service cache (Some (JObj members)))
  ∧ status bad_request = 400
  ∧ destructure (or_default body (JObj [])) ≠ None
  ∧ (truthy body = false → or_default body (JObj []) = JObj []).
Proof.
  intros Hobj.
  assert (∀ b, body_property b (lit "sql") = None →
            explain_sql service cache b = (cache, bad_request, [])) as Hreject.
  { intros b Hsql. unfold explain_sql.
    rewrite (begin_invalid cache b _ (destructure_coalesced b)); [done|].
    apply validates_false. left. simpl. by rewrite Hsql. }
  assert (body_property body (lit "sql") = None) as Hsql.
  { by destruct body as [[| | | | |]|]. }
  repeat split.
  - by apply Hreject.
  - rewrite !Hreject; done.
  - intros members Hmem. rewrite !Hreject; done.
  - rewrite destructure_coalesced. done.
  - intros Hfalsy. unfold or_default. destruct body; [by rewrite Hfalsy | done].
Qed.

Lemma missing_body_is_rejected_witness :
  explain_sql always_rejects ∅ undefined = (∅, bad_request, [])
  ∧ explain_sql always_rejects ∅ (Some (JArr [JStr (lit "SELECT 1")])) = (∅, bad_request, []).
Proof.
  split.
  - exact (proj1 (missing_body_is_rejected always_rejects ∅ undefined eq_refl)).
  - exact (proj1 (missing_body_is_rejected always_rejects ∅
                    (Some (JArr [JStr (lit "SELECT 1")])) eq_refl)).
Defined.


(** [C4], as stated, fails on a body whose [sql] is the empty string: the
    field is present and is a string, and the request is turned away. *)
Lemma empty_sql_is_rejected :
  explain_sql_begin ∅ (Some (JObj [(lit "sql", JStr [])])) = Done bad_request
  ∧ ¬ (body_property (Some (JObj [(lit "sql", JStr [])])) (lit "sql") = None
       ∨ is_string (body_property (Some (JObj [(lit "sql", JStr [])])) (lit "sql")) = false).
Proof. split; [reflexivity|]. by intros [H|H]; vm_compute in H. Qed.

(** [C4], amended. A request is turned away by validation, with status 400
    and an [{ error: string }] body, the store as it was and no call made,
    if and only if its [sql] is absent, is not a string, or is the empty
    string; every other request has a string [sql] and goes on to key
    derivation. *)
Theorem validation_gate
    (service : chat_request → settled) (cache : store) (body : value) :
  (explain_sql_begin cache body = Done bad_request ↔
     body_property body (lit "sql") = None
     ∨ is_string (body_property body (lit "sql")) = false
     ∨ body_property body (lit "sql") = Some (JStr []))
  ∧ (explain_sql_begin cache body = Done bad_request →
       explain_sql service cache body = (cache, bad_request, [])
       ∧ status bad_request = 400
       ∧ payload bad_request = [(lit "error", JStr (lit "Missing 'sql' in request body."))])
  ∧ (explain_sql_begin cache body ≠ Done bad_request →
       ∃ q, body_property body (lit "sql") = Some (JStr q) ∧ q ≠ []
            ∧ key_of_body body =
                Some (deriveKey (Some (JStr q)) (body_property body (lit "challengeId"))
                        (body_property body (lit "title"))
                        (body_property body (lit "gradeStatus")))).
Proof.
  pose proof (destructure_coalesced body) as Hr.
  set (r := Build_request _ _ _ _ _) in Hr.
  assert (explain_sql_begin cache body = Done bad_request ↔ validates r = false) as Hgate.
  { destruct (validates r) eqn:Hv.
    - rewrite (begin_valid cache body r Hr Hv). split; [|done].
      destruct (cache_get (request_key r) cache); [done|].
      by destruct (request_prompt r).
    - by rewrite (begin_invalid cache body r Hr Hv). }
  split; [|split].
  - rewrite Hgate, validates_false. simpl. split.
    + intros [H|H]; auto.
    + intros [H|[H|H]]; auto. left. by rewrite H.
  - intros Hbad. unfold explain_sql. by rewrite Hbad.
  - intros Hgo. rewrite Hgate, not_false_iff_true in Hgo.
    pose proof Hgo as Hv. apply validates_true in Hgo as (q & Hq & Hne). simpl in Hq.
    exists q. split; [done|]. split; [done|].
    unfold key_of_body. rewrite Hr. simpl. rewrite Hv. unfold request_key. simpl.
    by rewrite Hq.
Qed.

(** ** The handler after its [await] *)

Lemma quote_units_cons (c : N) (rest : jsstring) :
  quote_units (c :: rest) =
    if c =? 8 then 92 :: 98 :: quote_units rest
    else if c =? 9 then 92 :: 116 :: quote_units rest
    else if c =? 10 then 92 :: 110 :: quote_units rest
    else if c =? 12 then 92 :: 102 :: quote_units rest
    else if c =? 13 then 92 :: 114 :: quote_units rest
    else if c =? 34 then 92 :: 34 :: quote_units rest
    else if c =? 92 then 92 :: 92 :: quote_units rest
    else if c <? 32 then UnicodeEscape c ++ quote_units rest
    else if is_leading_surrogate c then
      match rest with
      | d :: rest' =>
          if is_trailing_surrogate d then c :: d :: quote_units rest'
          else UnicodeEscape c ++ quote_units rest
      | [] => UnicodeEscape c ++ quote_units rest
      end
    else if is_surrogate c then UnicodeEscape c ++ quote_units rest
    else c :: quote_units rest.
Proof. reflexivity. Qed.

Lemma quote_units_plain c :
  32 ≤ c → c ≠ 34 → c ≠ 92 → c < 0xD800 → quote_units [c] = [c].
Proof.
  intros H32 H34 H92 Hsur. rewrite quote_units_cons.
  rewrite !(proj2 (N.eqb_neq c _)) by lia.
  rewrite (proj2 (N.ltb_ge c 32)) by lia.
  unfold is_leading_surrogate, is_surrogate.
  rewrite (proj2 (N.leb_gt 0xD800 c)) by lia. reflexivity.
Qed.

Lemma key_of_numbered_body i :
  (i ≤ 1000)%nat → key_of_body (numbered_body i) = Some (numbered_key i).
Proof.
  intros Hi. unfold key_of_body. rewrite destructure_coalesced.
  cbn [mbind option_bind]. 
  change (body_property (numbered_body i) (lit "sql")) with (Some (JStr (numbered_sql i))).
  change (body_property (numbered_body i) (lit "challengeId")) with (@None json).
  change (body_property (numbered_body i) (lit "title")) with (@None json).
  change (body_property (numbered_body i) (lit "description")) with (@None json).
  change (body_property (numbered_body i) (lit "gradeStatus")) with (@None json).
  change (validates _) with true. cbv iota.
  unfold request_key, deriveKey, JSON_stringify_object. cbn [sql challengeId title gradeStatus].
  cbn [omap list_omap serialize_member snd fst join_comma SerializeJSONProperty].
  unfold QuoteJSONString at 2. unfold numbered_sql. rewrite quote_units_plain by lia.
  reflexivity.
Qed.

Lemma numbered_prompt i :
  ∃ prompt,
    request_prompt
      {| sql := Some (JStr (numbered_sql i)); challengeId := None; title := None;
         description := None; gradeStatus := None |} = Some prompt.
Proof. eexists. reflexivity. Qed.

(** A request that misses and whose completion has no content. *)
Lemma serve_numbered cache i :
  (i ≤ 1000)%nat →
  cache_get (numbered_key i) cache = None →
  (explain_sql no_choices cache (numbered_body i)).1.1
  = save_to_cache (numbered_key i) (JStr placeholder) cache.
Proof.
  intros Hi Hmiss. pose proof (key_of_numbered_body i Hi) as Hkey.
  set (r := {| sql := Some (JStr (numbered_sql i)); challengeId := None; title := None;
               description := None; gradeStatus := None |}).
  assert (destructure (or_default (numbered_body i) (JObj [])) = Some r) as Hr
    by reflexivity.
  assert (validates r = true) as Hv by reflexivity.
  assert (request_key r = numbered_key i) as Hkeyr by (apply (inj Some); exact Hkey).
  destruct (numbered_prompt i) as [prompt Hprompt]. fold r in Hprompt.
  unfold explain_sql.
  rewrite (begin_valid cache _ r Hr Hv), Hkeyr, Hmiss, Hprompt. reflexivity.
Qed.

Lemma numbered_entries_keys n k :
  k ∈ (numbered_entries n).*1 → ∃ i, (i < n)%nat ∧ k = numbered_key i.
Proof.
  unfold numbered_entries. rewrite <- list_fmap_compose.
  intros (i & -> & Hi)%list_elem_of_fmap. apply elem_of_seq in Hi. exists i. split; [lia|done].
Qed.

Lemma save_numbered n :
  (n ≤ cache_limit)%nat →
  cache_size (save_all (numbered_entries n) ∅) = n
  ∧ ∀ k, k ∉ (numbered_entries n).*1 → save_all (numbered_entries n) ∅ !! k = None.
Proof.
  intros Hn. destruct (save_all_below_bound (numbered_entries n) ∅) as [Hsize Hother].
  - apply numbered_entries_NoDup.
  - intros. apply lookup_empty.
  - unfold cache_size, numbered_entries. rewrite map_size_empty, length_fmap, length_seq. lia.
  - split.
    + rewrite Hsize. unfold cache_size, numbered_entries.
      rewrite map_size_empty, length_fmap, length_seq. done.
    + intros k Hk. rewrite Hother by done. apply lookup_empty.
Qed.

(** Serving [n] numbered requests one after the other fills the store
    with their [n] keys. *)
Lemma serve_all_numbered n :
  (n ≤ cache_limit)%nat →
  serve_all no_choices (numbered_body <$> seq 0 n) ∅ = save_all (numbered_entries n) ∅.
Proof.
  induction n as [|n IH]; intros Hn; [done|].
  assert (numbered_entries (S n)
          = numbered_entries n ++ [(numbered_key n, JStr placeholder)]) as ->.
  { unfold numbered_entries. by rewrite seq_S, fmap_app. }
  rewrite seq_S, fmap_app, save_all_snoc. unfold serve_all. rewrite foldl_app.
  fold (serve_all no_choices (numbered_body <$> seq 0 n) ∅). rewrite IH by lia.
  cbn [foldl fmap list_fmap]. apply serve_numbered; [unfold cache_limit in Hn; lia|].
  apply (save_numbered n); [lia|].
  intros (i & Hi & Heq)%numbered_entries_keys. apply numbered_key_inj in Heq. lia.
Qed.

Lemma numbered_cache_size n : (n ≤ cache_limit)%nat → cache_size (numbered_cache n) = n.
Proof.
  intros Hn. unfold numbered_cache. rewrite serve_all_numbered by done.
  by apply save_numbered.
Qed.

Lemma numbered_cache_lookup n (key : jsstring) :
  (n ≤ cache_limit)%nat → (∀ i, key ≠ numbered_key i) → numbered_cache n !! key = None.
Proof.
  intros Hn Hkey. unfold numbered_cache. rewrite serve_all_numbered by done.
  apply (save_numbered n); [done|].
  intros (i & _ & Heq)%numbered_entries_keys. by apply (Hkey i).
Qed.

(** [C5], as stated, fails on a store of 1000 entries, as 1000 requests
    with distinct [sql] leave it: the put of a new key makes 1001 entries,
    the bound check of line 86 clears the store, and the [get] that follows
    finds nothing. *)
Lemma newest_entry_cleared_on_overflow :
  cache_size (numbered_cache 1000) = 1000%nat
  ∧ cache_get select_1_only_key (numbered_cache 1000) = undefined
  ∧ cache_get select_1_only_key
      (save_to_cache select_1_only_key (JStr placeholder) (numbered_cache 1000))
    = undefined
  ∧ cache_get select_1_only_key
      (save_to_cache select_1_only_key (JStr placeholder) (numbered_cache 1000))
    ≠ Some (JStr placeholder).
Proof.
  change 1000%nat with cache_limit.
  pose proof (numbered_cache_size cache_limit (le_n _)) as Hsize.
  assert (numbered_cache cache_limit !! select_1_only_key = None) as Hmiss.
  { apply numbered_cache_lookup; [done|].
    intros i Heq. apply (f_equal length) in Heq. vm_compute in Heq. done. }
  revert Hsize Hmiss. generalize (numbered_cache cache_limit). intros cache Hsize Hmiss.
  assert (save_to_cache select_1_only_key (JStr placeholder) cache = ∅) as ->.
  { apply save_to_cache_overflow. rewrite cache_set_size_fresh by exact Hmiss. lia. }
  unfold cache_get. rewrite lookup_empty. done.
Qed.


Example content_missing :
  message_content
    (Some (JObj [(lit "choices", JArr [JObj [(lit "message", JObj [(lit "role", JStr (lit "assistant"))])]])]))
  = Some undefined.
Proof. reflexivity. Qed.

Example content_empty :
  message_content
    (Some (JObj [(lit "choices", JArr [JObj [(lit "message", JObj [(lit "content", JStr [])])]])]))
  = Some (Some (JStr [])).
Proof. reflexivity. Qed.





(** ** The user prompt *)

Lemma description_text_absent : description_text undefined = Some [].
Proof. reflexivity. Qed.

Lemma description_text_string (d : jsstring) :
  description_text (Some (JStr d)) = Some (take 500 d).
Proof.
  unfold description_text, or_default. simpl. unfold jsstring_eqb.
  case_bool_decide as Hd; simpl; [by rewrite Hd | done].
Qed.

(** [C8], as stated, fails on a description that is an array: [slice]
    keeps its first 500 elements, and the template literal joins them, here
    into 501 characters. *)
Lemma array_description_not_truncated :
  description_text (Some (JArr [JStr (replicate 501 97)])) = Some (replicate 501 97)
  ∧ length (replicate 501 97 : jsstring) = 501%nat
  ∧ ∃ key before after,
      explain_sql_begin ∅
        (Some (JObj [(lit "sql", JStr (lit "SELECT 1"));
                     (lit "description", JArr [JStr (replicate 501 97)])]))
      = AwaitCompletion key
          (completion_call (before ++ replicate 501 97 ++ after)).
Proof.
  split; [by vm_compute|]. split; [by vm_compute|].
  eexists select_1_only_key,
    (nl ++ lit "SQL query:" ++ nl ++ lit "SELECT 1" ++ nl ++ nl ++ lit "Challenge context:"
     ++ nl ++ lit "- ID: unknown" ++ nl ++ lit "- Title: N/A"
     ++ nl ++ lit "- Description (may be truncated):" ++ nl),
    (nl ++ nl ++ lit "Grading status (if any): N/A" ++ nl ++ nl
     ++ lit "Please explain this query step by step, as if mentoring an analyst who knows basic SQL but wants to understand the logic and business meaning."
     ++ nl).
  by vm_compute.
Qed.

(** [C8], amended. For every request whose [description] is absent or a
    string, the prompt sent to the service is the template of lines 55-68
    with, under the description heading, the first 500 code units of that
    string (all of it when shorter, nothing when absent). *)
Theorem description_is_truncated
    (cache : store) (body : value) (key : jsstring) (call : chat_request) (d : jsstring) :
  (body_property body (lit "description") = None ∧ d = [])
  ∨ body_property body (lit "description") = Some (JStr d) →
  explain_sql_begin cache body = AwaitCompletion key call →
  description_text (body_property body (lit "description")) = Some (take 500 d)
  ∧ (length (take 500 d) ≤ 500)%nat
  ∧ take 500 d `prefix_of` d
  ∧ ∃ q id_text title_text grade,
      body_property body (lit "sql") = Some (JStr q)
      ∧ user_content call =
          nl ++ lit "SQL query:"
          ++ nl ++ q
          ++ nl
          ++ nl ++ lit "Challenge context:"
          ++ nl ++ lit "- ID: " ++ id_text
          ++ nl ++ lit "- Title: " ++ title_text
          ++ nl ++ lit "- Description (may be truncated):"
          ++ nl ++ take 500 d
          ++ nl
          ++ nl ++ lit "Grading status (if any): " ++ grade
          ++ nl
          ++ nl ++ lit "Please explain this query step by step, as if mentoring an analyst who knows basic SQL but wants to understand the logic and business meaning."
          ++ nl.
Proof.
  intros Hdescr Hbegin.
  assert (description_text (body_property body (lit "description")) = Some (take 500 d))
    as Htext.
  { destruct Hdescr as [[-> ->] | ->];
      [apply description_text_absent | apply description_text_string]. }
  split; [done|]. split; [rewrite length_take; lia|]. split; [apply prefix_take|].
  unfold explain_sql_begin in Hbegin. rewrite destructure_coalesced in Hbegin.
  simpl in Hbegin. set (r := Build_request _ _ _ _ _) in Hbegin.
  destruct (validates r); simpl in Hbegin; [|done].
  destruct (cache_get (request_key r) cache); [done|].
  unfold request_prompt in Hbegin. simpl in Hbegin.
  destruct (body_property body (lit "sql")) as [[| | |q| |]|]; try done.
  unfold userPrompt in Hbegin. rewrite Htext in Hbegin.
  destruct (ToString (or_default (body_property body (lit "challengeId")) _))
    as [id_text|]; [|done].
  destruct (ToString (or_default (body_property body (lit "title")) _))
    as [title_text|]; [|done].
  destruct (ToString (or_default (body_property body (lit "gradeStatus")) _))
    as [grade|]; [|done].
  simpl in Hbegin. injection Hbegin as _ <-.
  by exists q, id_text, title_text, grade.
Qed.

Lemma description_is_truncated_witness :
  ∃ key call,
    explain_sql_begin ∅
      (Some (JObj [(lit "sql", JStr (lit "SELECT 1"));
                   (lit "description", JStr (replicate 600 97))]))
    = AwaitCompletion key call
    ∧ description_text (Some (JStr (replicate 600 97))) = Some (replicate 500 97).
Proof.
  eexists _, _. split; [by vm_compute|].
  refine (proj1 (description_is_truncated ∅
            (Some (JObj [(lit "sql", JStr (lit "SELECT 1"));
                         (lit "description", JStr (replicate 600 97))]))
            _ _ (replicate 600 97) _ _)).
  - right. reflexivity.
  - by vm_compute.
Defined.

(** ** Key derivation is uniquely readable *)

Section Quoting.
Implicit Types (c d : N) (s rest input : jsstring).

Lemma unhex_hex_digit n : n < 16 → unhex_digit (hex_digit n) = n.
Proof.
  intros Hn. unfold unhex_digit, hex_digit.
  destruct (N.ltb_spec n 10).
  - destruct (N.ltb_spec (48 + n) 58); lia.
  - destruct (N.ltb_spec (87 + n) 58); lia.
Qed.

Lemma unquote_literal c input :
  c ≠ 34 → c ≠ 92 →
  unquote_units (c :: input) = '(s, r) ← unquote_units input; Some (c :: s, r).
Proof.
  intros H34 H92. cbn [unquote_units].
  apply N.eqb_neq in H34 as ->. by apply N.eqb_neq in H92 as ->.
Qed.

Lemma unquote_escape e c input :
  unescape e = Some c →
  unquote_units (92 :: e :: input) = '(s, r) ← unquote_units input; Some (c :: s, r).
Proof.
  intros He. cbn [unquote_units].
  change (92 =? 34) with false. change (92 =? 92) with true. cbv iota.
  destruct (e =? 117) eqn:Hu.
  - apply N.eqb_eq in Hu as ->. done.
  - by rewrite He.
Qed.

Lemma unquote_unicode c input :
  c < 65536 →
  unquote_units (UnicodeEscape c ++ input)
  = '(s, r) ← unquote_units input; Some (c :: s, r).
Proof.
  intros Hc. unfold UnicodeEscape. cbn [app unquote_units].
  change (92 =? 34) with false. change (92 =? 92) with true.
  change (117 =? 117) with true. cbv iota.
  rewrite !unhex_hex_digit by (zify; Z.to_euclidean_division_equations; lia).
  replace (4096 * (c / 4096) + 256 * ((c / 256) mod 16) + 16 * ((c / 16) mod 16) + c mod 16)
    with c by (zify; Z.to_euclidean_division_equations; lia).
  done.
Qed.

Lemma surrogate_bounds c :
  is_surrogate c = true → c < 65536 ∧ c ≠ 34 ∧ c ≠ 92.
Proof. unfold is_surrogate. rewrite andb_true_iff, !N.leb_le. lia. Qed.

Lemma leading_is_surrogate c : is_leading_surrogate c = true → is_surrogate c = true.
Proof.
  unfold is_leading_surrogate, is_surrogate. rewrite !andb_true_iff, !N.leb_le. lia.
Qed.

Lemma trailing_is_surrogate c : is_trailing_surrogate c = true → is_surrogate c = true.
Proof.
  unfold is_trailing_surrogate, is_surrogate. rewrite !andb_true_iff, !N.leb_le. lia.
Qed.

(** Reading back a quoted string returns the string and stops right
    after its closing quote. *)
Lemma unquote_quote_units s : ∀ rest,
  unquote_units (quote_units s ++ 34 :: rest) = Some (s, rest).
Proof.
  induction s as [s IH] using (induction_ltof1 _ (@length N)). unfold ltof in IH.
  intros rest. destruct s as [|c s]; [reflexivity|].
  assert (∀ rest, unquote_units (quote_units s ++ 34 :: rest) = Some (s, rest)) as IHs.
  { apply IH. simpl. lia. }
  rewrite quote_units_cons.
  destruct (N.eqb_spec c 8) as [->|H8];
    [cbn [app]; by rewrite (unquote_escape 98 8), IHs|].
  destruct (N.eqb_spec c 9) as [->|H9];
    [cbn [app]; by rewrite (unquote_escape 116 9), IHs|].
  destruct (N.eqb_spec c 10) as [->|H10];
    [cbn [app]; by rewrite (unquote_escape 110 10), IHs|].
  destruct (N.eqb_spec c 12) as [->|H12];
    [cbn [app]; by rewrite (unquote_escape 102 12), IHs|].
  destruct (N.eqb_spec c 13) as [->|H13];
    [cbn [app]; by rewrite (unquote_escape 114 13), IHs|].
  destruct (N.eqb_spec c 34) as [->|H34];
    [cbn [app]; by rewrite (unquote_escape 34 34), IHs|].
  destruct (N.eqb_spec c 92) as [->|H92];
    [cbn [app]; by rewrite (unquote_escape 92 92), IHs|].
  destruct (N.ltb_spec c 32) as [Hctl|Hctl].
  { rewrite <- app_assoc, unquote_unicode, IHs by lia. done. }
  destruct (is_leading_surrogate c) eqn:Hlead.
  { pose proof (surrogate_bounds c (leading_is_surrogate c Hlead)) as (Hc & _ & _).
    destruct s as [|d s].
    - rewrite <- app_assoc, unquote_unicode, IHs by done. done.
    - destruct (is_trailing_surrogate d) eqn:Htrail.
      + pose proof (surrogate_bounds d (trailing_is_surrogate d Htrail)) as (_ & Hd34 & Hd92).
        cbn [app]. rewrite unquote_literal, unquote_literal, IH by (done || simpl; lia).
        done.
      + rewrite <- app_assoc, unquote_unicode, IHs by done. done. }
  destruct (is_surrogate c) eqn:Hsur.
  { pose proof (surrogate_bounds c Hsur) as (Hc & _ & _).
    rewrite <- app_assoc, unquote_unicode, IHs by done. done. }
  cbn [app]. rewrite unquote_literal, IHs by done. done.
Qed.

(** Hence quoted strings are uniquely readable, whatever follows them. *)
Lemma QuoteJSONString_prefix s1 s2 rest1 rest2 :
  QuoteJSONString s1 ++ rest1 = QuoteJSONString s2 ++ rest2 →
  s1 = s2 ∧ rest1 = rest2.
Proof.
  unfold QuoteJSONString. cbn [app]. rewrite <- !app_assoc. cbn [app].
  intros [= Heq].
  pose proof (unquote_quote_units s1 rest1) as H1. rewrite Heq in H1.
  rewrite unquote_quote_units in H1. by injection H1 as <- <-.
Qed.
End Quoting.

Lemma join_comma_cons (p : jsstring) (rest : list jsstring) :
  join_comma (p :: rest) = p ++ concat (List.map (cons 44) rest).
Proof.
  revert p. induction rest as [|q rest IH]; intros p.
  - simpl. by rewrite app_nil_r.
  - change (join_comma (p :: q :: rest)) with (p ++ 44 :: join_comma (q :: rest)).
    rewrite IH. done.
Qed.

Lemma numeric_unit_not_delimiter c : numeric_unit c = true → is_delimiter c = false.
Proof.
  unfold numeric_unit, is_delimiter.
  rewrite !orb_true_iff, andb_true_iff, !N.leb_le, !N.eqb_eq.
  intros H. rewrite !orb_false_iff, !N.eqb_neq. lia.
Qed.

(** Two texts without delimiters that are each followed by one and then
    agree are the same text. *)
Lemma delimiter_free_prefix (t t' : jsstring) (d d' : N) (R R' : jsstring) :
  forallb numeric_unit t = true → forallb numeric_unit t' = true →
  is_delimiter d = true → is_delimiter d' = true →
  t ++ d :: R = t' ++ d' :: R' → t = t' ∧ d :: R = d' :: R'.
Proof.
  revert t'. induction t as [|c t IH]; intros [|c' t'] Ht Ht' Hd Hd' Heq.
  - done.
  - exfalso. cbn in Heq, Ht'. injection Heq as -> _.
    apply andb_true_iff in Ht' as [Hc' _]. apply numeric_unit_not_delimiter in Hc'. congruence.
  - exfalso. cbn in Heq, Ht. injection Heq as <- _.
    apply andb_true_iff in Ht as [Hc _]. apply numeric_unit_not_delimiter in Hc. congruence.
  - cbn in Heq, Ht, Ht'. injection Heq as -> Heq.
    apply andb_true_iff in Ht as [_ Ht]. apply andb_true_iff in Ht' as [_ Ht'].
    destruct (IH t' Ht Ht' Hd Hd' Heq) as [-> ?]. done.
Qed.

Section Joining.
Context {A : Type} (enc : A → jsstring) (ok : A → Prop) (close : N).
Hypothesis close_delimiter : is_delimiter close = true.
Hypothesis close_not_comma : close ≠ 44.
Hypothesis enc_head : ∀ y, ok y → ∃ c t, enc y = c :: t ∧ c ≠ close.

Lemma separated_head (parts : list jsstring) (R : jsstring) :
  ∃ d T, concat (List.map (cons 44) parts) ++ close :: R = d :: T ∧ is_delimiter d = true.
Proof. destruct parts as [|p parts]; simpl; by eexists _, _. Qed.

Lemma separated_delimited (xs : list A) :
  Forall (delimited enc ok) xs →
  ∀ ys R R', Forall ok ys →
    concat (List.map (cons 44) (List.map enc xs)) ++ close :: R
    = concat (List.map (cons 44) (List.map enc ys)) ++ close :: R' →
    xs = ys ∧ R = R'.
Proof.
  induction 1 as [|x xs Hx _ IH]; intros ys R R' Hok Heq.
  - destruct ys as [|y ys]; simpl in Heq.
    + by injection Heq as ->.
    + injection Heq as Hc _. done.
  - destruct ys as [|y ys]; simpl in Heq.
    + injection Heq as Hc _. done.
    + apply Forall_cons in Hok as [Hy Hok].
      injection Heq as Heq. rewrite <- !app_assoc in Heq.
      destruct (separated_head (List.map enc xs) R) as (d & T & HT & Hd).
      destruct (separated_head (List.map enc ys) R') as (d' & T' & HT' & Hd').
      rewrite HT, HT' in Heq.
      apply Hx in Heq as [-> Heq]; [|done..].
      rewrite <- HT, <- HT' in Heq.
      apply IH in Heq as [-> ->]; done.
Qed.

Lemma join_comma_delimited (xs : list A) :
  Forall (λ x, ok x ∧ delimited enc ok x) xs →
  ∀ ys R R', Forall ok ys →
    join_comma (List.map enc xs) ++ close :: R
    = join_comma (List.map enc ys) ++ close :: R' →
    xs = ys ∧ R = R'.
Proof.
  intros Hxs ys R R' Hok Heq.
  destruct xs as [|x xs], ys as [|y ys].
  - simpl in Heq. by injection Heq as ->.
  - exfalso. apply Forall_cons in Hok as [Hy _].
    destruct (enc_head y Hy) as (c & t & Hc & Hne).
    cbn [List.map] in Heq. rewrite join_comma_cons, Hc in Heq.
    simpl in Heq. injection Heq as Hcc _. done.
  - exfalso. apply Forall_cons in Hxs as [[Hx _] _].
    destruct (enc_head x Hx) as (c & t & Hc & Hne).
    cbn [List.map] in Heq. rewrite join_comma_cons, Hc in Heq.
    simpl in Heq. injection Heq as Hcc _. done.
  - apply Forall_cons in Hxs as [[_ Hx] Hxs]. apply Forall_cons in Hok as [Hy Hok].
    cbn [List.map] in Heq. rewrite !join_comma_cons, <- !app_assoc in Heq.
    destruct (separated_head (List.map enc xs) R) as (d & T & HT & Hd).
    destruct (separated_head (List.map enc ys) R') as (d' & T' & HT' & Hd').
    rewrite HT, HT' in Heq.
    apply Hx in Heq as [-> Heq]; [|done..].
    rewrite <- HT, <- HT' in Heq.
    apply separated_delimited in Heq as [-> ->]; [done| |done].
    eapply Forall_impl; [exact Hxs|]. by intros ? [_ ?].
Qed.
End Joining.

(** How a serialized value starts: never with a delimiter, and with a
    numeric unit exactly when it is a number. *)
Lemma finite_numbers_head v :
  finite_numbers v = true →
  ∃ c t, SerializeJSONProperty v = c :: t ∧ is_delimiter c = false
         ∧ (numeric_unit c = true ↔ ∃ n, v = JNum n).
Proof.
  destruct v as [|[]|[text|neg]|s|items|members]; intros Hv; try done;
    try (cbn; eexists _, _; split; [reflexivity|]; split; [done|];
         split; [done | by intros [? ?]]).
  destruct text as [|c text]; [done|]. cbn in Hv. apply andb_true_iff in Hv as [Hc _].
  exists c, text. split; [done|]. split; [by apply numeric_unit_not_delimiter|].
  split; [by eexists | done].
Qed.

(** A serialized value followed by a delimiter is read back uniquely. *)
Lemma SerializeJSONProperty_delimited v :
  finite_numbers v = true →
  delimited SerializeJSONProperty (λ x, finite_numbers x = true) v.
Proof.
  induction v as [|b|n|s|items IH|members IH] using json_nested_ind;
    intros Hv v' d d' R R' Hv' Hd Hd' Heq.
  - destruct v' as [|[]|[t'|?]|s'|items'|members']; try done; cbn in Heq;
      try discriminate.
    + by injection Heq as -> ->.
    + destruct t' as [|c' t']; [done|]. cbn in Hv'. apply andb_true_iff in Hv' as [Hc' _].
      injection Heq as <- _. done.
  - destruct b, v' as [|[]|[t'|?]|s'|items'|members']; try done; cbn in Heq;
      try discriminate; try (by injection Heq as -> ->).
    + destruct t' as [|c' t']; [done|]. cbn in Hv'. apply andb_true_iff in Hv' as [Hc' _].
      injection Heq as <- _. done.
    + destruct t' as [|c' t']; [done|]. cbn in Hv'. apply andb_true_iff in Hv' as [Hc' _].
      injection Heq as <- _. done.
  - destruct n as [t|neg]; [|done]. cbn [finite_numbers] in Hv.
    destruct (finite_numbers_head v' Hv') as (c' & T' & HT' & _ & Hnum).
    destruct t as [|c t]; [done|]. cbn [numeric_text] in Hv.
    pose proof Hv as Hall. cbn [forallb] in Hv. apply andb_true_iff in Hv as [Hc _].
    cbn [SerializeJSONProperty] in Heq.
    assert (c' = c) as Hcc.
    { rewrite HT' in Heq. cbn in Heq. by injection Heq as ->. }
    rewrite Hcc in Hnum. destruct (proj1 Hnum Hc) as [[t'|neg'] Hnumber];
      rewrite Hnumber in Hv', Heq; [|done].
    cbn [finite_numbers SerializeJSONProperty] in Hv', Heq.
    assert (forallb numeric_unit t' = true) as Hall'.
    { destruct t'; [done|]. exact Hv'. }
    by apply delimiter_free_prefix in Heq as [-> ?].
  - destruct v' as [|[]|[t'|?]|s'|items'|members']; try done;
      try (cbn in Heq; discriminate).
    + destruct t' as [|c' t']; [done|]. cbn in Hv'. apply andb_true_iff in Hv' as [Hc' _].
      cbn in Heq. injection Heq as <- _. done.
    + change (SerializeJSONProperty (JStr s)) with (QuoteJSONString s) in Heq.
      change (SerializeJSONProperty (JStr s')) with (QuoteJSONString s') in Heq.
      by apply QuoteJSONString_prefix in Heq as [-> ?].
  - destruct v' as [|[]|[t'|?]|s'|items'|members']; try done;
      try (cbn in Heq; discriminate).
    + destruct t' as [|c' t']; [done|]. cbn in Hv'. apply andb_true_iff in Hv' as [Hc' _].
      cbn in Heq. injection Heq as <- _. done.
    + cbn [SerializeJSONProperty] in Heq. cbn [app] in Heq. rewrite <- !app_assoc in Heq.
      cbn [app] in Heq. injection Heq as Heq.
      cbn [finite_numbers] in Hv, Hv'. rewrite forallb_forall in Hv, Hv'.
      destruct (join_comma_delimited SerializeJSONProperty (λ x, finite_numbers x = true) 93)
        with (xs := items) (ys := items') (R := d :: R) (R' := d' :: R') as [-> ?];
        try done.
      * intros y Hy. destruct (finite_numbers_head y Hy) as (c & t & Hser & Hdel & _).
        exists c, t. split; [done|]. by intros ->.
      * apply Forall_forall. intros x Hx. split.
        -- apply Hv. by apply list_elem_of_In.
        -- rewrite Forall_forall in IH. apply IH; [done|].
           apply Hv. by apply list_elem_of_In.
      * apply Forall_forall. intros x Hx. apply Hv'. by apply list_elem_of_In.
  - destruct v' as [|[]|[t'|?]|s'|items'|members']; try done;
      try (cbn in Heq; discriminate).
    + destruct t' as [|c' t']; [done|]. cbn in Hv'. apply andb_true_iff in Hv' as [Hc' _].
      cbn in Heq. injection Heq as <- _. done.
    + cbn [SerializeJSONProperty] in Heq. cbn [app] in Heq. rewrite <- !app_assoc in Heq.
      cbn [app] in Heq. injection Heq as Heq.
      cbn [finite_numbers] in Hv, Hv'. rewrite forallb_forall in Hv, Hv'.
      destruct (join_comma_delimited serialize_pair (λ m, finite_numbers (snd m) = true) 125)
        with (xs := members) (ys := members') (R := d :: R) (R' := d' :: R') as [-> ?];
        try done.
      * intros y Hy. eexists _, _. split; [reflexivity|done].
      * apply Forall_forall. intros x Hx. split.
        -- apply Hv. by apply list_elem_of_In.
        -- rewrite Forall_forall in IH. intros [k' y] e e' Q Q' Hy He He'.
           unfold serialize_pair. rewrite <- !app_assoc.
           intros [Hk Hrest]%QuoteJSONString_prefix.
           cbn [app] in Hrest. injection Hrest as Hrest. simpl in *.
           apply IH in Hrest as [Hxy ?]; [|done| |done..].
           ++ split; [|done]. destruct x. simpl in *. by subst.
           ++ apply Hv. by apply list_elem_of_In.
      * apply Forall_forall. intros x Hx. apply Hv'. by apply list_elem_of_In.
Qed.

Lemma omap_serialize_member props :
  omap serialize_member props = List.map serialize_pair (present props).
Proof.
  induction props as [|[k [x|]] props IH]; simpl; [done| |exact IH].
  f_equal. exact IH.
Qed.

Lemma serialize_pair_delimited (m : jsstring * json) :
  finite_numbers (snd m) = true →
  delimited serialize_pair (λ m, finite_numbers (snd m) = true) m.
Proof.
  intros Hm [k' y] d d' R R' Hy Hd Hd'. unfold serialize_pair. rewrite <- !app_assoc.
  intros [Hk Hrest]%QuoteJSONString_prefix. cbn [app] in Hrest. injection Hrest as Hrest.
  apply SerializeJSONProperty_delimited in Hrest as [Hxy ?]; [|done..].
  split; [|done]. destruct m. simpl in *. by subst.
Qed.

Lemma JSON_stringify_object_present props1 props2 :
  Forall (λ m, finite_numbers_value (snd m) = true) props1 →
  Forall (λ m, finite_numbers_value (snd m) = true) props2 →
  JSON_stringify_object props1 = JSON_stringify_object props2 →
  present props1 = present props2.
Proof.
  intros H1 H2. unfold JSON_stringify_object. rewrite !omap_serialize_member.
  intros [= Heq].
  assert (∀ props, Forall (λ m, finite_numbers_value (snd m) = true) props →
            Forall (λ m, finite_numbers (snd m) = true) (present props)) as Hpresent.
  { induction 1 as [|[k [x|]] props Hx _ IH]; simpl; [done| |done].
    apply Forall_cons. done. }
  destruct (join_comma_delimited serialize_pair (λ m, finite_numbers (snd m) = true) 125)
    with (xs := present props1) (ys := present props2) (R := @nil N) (R' := @nil N)
    as [Hp _]; try done.
  - intros y Hy. eexists _, _. split; [reflexivity|done].
  - eapply Forall_impl; [apply Hpresent, H1|].
    intros m Hm. split; [done|]. by apply serialize_pair_delimited.
  - by apply Hpresent.
Qed.

Lemma deriveKey_injective (s1 c1 t1 g1 s2 c2 t2 g2 : value) :
  finite_numbers_value s1 = true → finite_numbers_value c1 = true →
  finite_numbers_value t1 = true → finite_numbers_value g1 = true →
  finite_numbers_value s2 = true → finite_numbers_value c2 = true →
  finite_numbers_value t2 = true → finite_numbers_value g2 = true →
  deriveKey s1 c1 t1 g1 = deriveKey s2 c2 t2 g2 →
  s1 = s2 ∧ c1 = c2 ∧ t1 = t2 ∧ g1 = g2.
Proof.
  intros Hs1 Hc1 Ht1 Hg1 Hs2 Hc2 Ht2 Hg2 Heq. unfold deriveKey in Heq.
  apply JSON_stringify_object_present in Heq.
  - destruct s1, s2, c1, c2, t1, t2, g1, g2; vm_compute in Heq; by simplify_eq.
  - repeat (apply Forall_cons; split; [done|]). done.
  - repeat (apply Forall_cons; split; [done|]). done.
Qed.

(** [C6], as stated, fails: a [challengeId] beyond the double range
    ([1e999] parses to [Infinity]) is printed [null] by [JSON.stringify],
    and so shares its key with a [challengeId] that is [null]. *)
Lemma infinity_collides_with_null :
  body_property
    (Some (JObj [(lit "sql", JStr (lit "SELECT 1"));
                 (lit "challengeId", JNum (NumInfinity false))])) (lit "challengeId")
  ≠ body_property
      (Some (JObj [(lit "sql", JStr (lit "SELECT 1")); (lit "challengeId", JNull)]))
      (lit "challengeId")
  ∧ key_of_body
      (Some (JObj [(lit "sql", JStr (lit "SELECT 1"));
                   (lit "challengeId", JNum (NumInfinity false))]))
    = key_of_body
        (Some (JObj [(lit "sql", JStr (lit "SELECT 1")); (lit "challengeId", JNull)]))
  ∧ key_of_body
      (Some (JObj [(lit "sql", JStr (lit "SELECT 1")); (lit "challengeId", JNull)]))
    = Some ([123] ++ QuoteJSONString (lit "sql") ++ [58] ++ QuoteJSONString (lit "SELECT 1")
            ++ [44] ++ QuoteJSONString (lit "challengeId") ++ [58] ++ lit "null" ++ [125]).
Proof. split; [by vm_compute|]. split; reflexivity. Qed.

(** [C6], amended. Two requests that both pass validation and whose
    [challengeId], [title] and [gradeStatus] are each absent or a JSON value
    in which every number is finite (strings, booleans, [null], finite
    numbers, and arrays and objects of such) derive different keys as soon
    as they differ in [sql], [challengeId], [title] or [gradeStatus]; an
    absent field is told apart from every present one, and the number [42]
    from the string [42]. *)
Theorem distinct_fields_distinct_keys (body1 body2 : value) (key1 key2 : jsstring) :
  finite_numbers_value (body_property body1 (lit "challengeId")) = true →
  finite_numbers_value (body_property body1 (lit "title")) = true →
  finite_numbers_value (body_property body1 (lit "gradeStatus")) = true →
  finite_numbers_value (body_property body2 (lit "challengeId")) = true →
  finite_numbers_value (body_property body2 (lit "title")) = true →
  finite_numbers_value (body_property body2 (lit "gradeStatus")) = true →
  key_of_body body1 = Some key1 →
  key_of_body body2 = Some key2 →
  body_property body1 (lit "sql") ≠ body_property body2 (lit "sql")
  ∨ body_property body1 (lit "challengeId") ≠ body_property body2 (lit "challengeId")
  ∨ body_property body1 (lit "title") ≠ body_property body2 (lit "title")
  ∨ body_property body1 (lit "gradeStatus") ≠ body_property body2 (lit "gradeStatus") →
  key1 ≠ key2.
Proof.
  intros Hc1 Ht1 Hg1 Hc2 Ht2 Hg2 Hk1 Hk2 Hdiff Hsame. subst key2.
  unfold key_of_body in Hk1, Hk2. rewrite destructure_coalesced in Hk1, Hk2.
  simpl in Hk1, Hk2.
  destruct (validates _) eqn:Hv1 in Hk1; [|done].
  destruct (validates _) eqn:Hv2 in Hk2; [|done].
  apply validates_true in Hv1 as (q1 & Hq1 & _). apply validates_true in Hv2 as (q2 & Hq2 & _).
  simpl in Hq1, Hq2. unfold request_key in Hk1, Hk2. simpl in Hk1, Hk2.
  injection Hk1 as Hk1. injection Hk2 as Hk2. rewrite <- Hk1 in Hk2.
  apply deriveKey_injective in Hk2 as (Hs & Hc & Ht & Hg);
    try done; try (by rewrite Hq1); try (by rewrite Hq2).
  destruct Hdiff as [H|[H|[H|H]]]; by apply H.
Qed.

Lemma distinct_fields_distinct_keys_witness :
  key_of_body (select_1_body "d") = Some select_1_key
  ∧ key_of_body select_1_only = Some select_1_only_key
  ∧ select_1_key ≠ select_1_only_key
  ∧ key_of_body (challenge_body (JNum (NumFinite (lit "42"))))
    ≠ key_of_body (challenge_body (JNum (NumFinite (lit "43"))))
  ∧ key_of_body (challenge_body (JNum (NumFinite (lit "42"))))
    ≠ key_of_body (challenge_body (JStr (lit "42"))).
Proof.
  split; [reflexivity|]. split; [reflexivity|]. split; [|split].
  - apply (distinct_fields_distinct_keys (select_1_body "d") select_1_only);
      try reflexivity.
    right. right. left. by vm_compute.
  - intros Heq.
    apply (distinct_fields_distinct_keys
             (challenge_body (JNum (NumFinite (lit "42"))))
             (challenge_body (JNum (NumFinite (lit "43"))))
             (deriveKey (Some (JStr (lit "SELECT 1"))) (Some (JNum (NumFinite (lit "42"))))
                None None)
             (deriveKey (Some (JStr (lit "SELECT 1"))) (Some (JNum (NumFinite (lit "43"))))
                None None));
      try reflexivity.
    + right. left. by vm_compute.
    + apply (inj Some). exact Heq.
  - intros Heq.
    apply (distinct_fields_distinct_keys
             (challenge_body (JNum (NumFinite (lit "42"))))
             (challenge_body (JStr (lit "42")))
             (deriveKey (Some (JStr (lit "SELECT 1"))) (Some (JNum (NumFinite (lit "42"))))
                None None)
             (deriveKey (Some (JStr (lit "SELECT 1"))) (Some (JStr (lit "42")))
                None None));
      try reflexivity.
    + right. left. by vm_compute.
    + apply (inj Some). exact Heq.
Defined.

(** * Further properties of the handler and the application *)

Lemma or_default_truthy (a : value) (d : json) :
  truthy (Some d) = true → truthy (Some (or_default a d)) = true.
Proof.
  intros Hd. unfold or_default. destruct a as [x|]; [|done].
  destruct (truthy (Some x)) eqn:Hx; done.
Qed.

Lemma placeholder_truthy : truthy (Some (JStr placeholder)) = true.
Proof. reflexivity. Qed.

Lemma key_of_body_shape body key :
  key_of_body body = Some key →
  ∃ q, q ≠ [] ∧ body_property body (lit "sql") = Some (JStr q)
       ∧ key = deriveKey (Some (JStr q)) (body_property body (lit "challengeId"))
                 (body_property body (lit "title")) (body_property body (lit "gradeStatus")).
Proof.
  unfold key_of_body. rewrite destructure_coalesced. cbn [mbind option_bind].
  destruct (validates _) eqn:Hv; [|done]. intros [= <-].
  apply validates_true in Hv as (q & Hq & Hne). cbn [sql] in Hq.
  exists q. split; [done|]. split; [done|]. unfold request_key. cbn [sql challengeId title gradeStatus].
  by rewrite Hq.
Qed.

Lemma key_of_body_none body cache :
  key_of_body body = None ↔ explain_sql_begin cache body = Done bad_request.
Proof.
  unfold key_of_body. rewrite destructure_coalesced. cbn [mbind option_bind].
  set (r := Build_request _ _ _ _ _).
  destruct (validates r) eqn:Hv.
  - rewrite (begin_valid cache body r (destructure_coalesced body) Hv). split; [done|].
    destruct (cache_get _ _); [done|]. by destruct (request_prompt r).
  - by rewrite (begin_invalid cache body r (destructure_coalesced body) Hv).
Qed.

(** What [explain_sql_begin] can return, by the key and the store. *)
Lemma begin_cases cache body :
  (key_of_body body = None ∧ explain_sql_begin cache body = Done bad_request)
  ∨ ∃ key, key_of_body body = Some key
      ∧ match cache_get key cache with
        | Some e => explain_sql_begin cache body = Done (cached_reply e)
        | None =>
            explain_sql_begin cache body = Done failed
            ∨ ∃ call, explain_sql_begin cache body = AwaitCompletion key call
        end.
Proof.
  unfold key_of_body. rewrite destructure_coalesced. cbn [mbind option_bind].
  set (r := Build_request _ _ _ _ _).
  destruct (validates r) eqn:Hv.
  - right. exists (request_key r). split; [done|].
    rewrite (begin_valid cache body r (destructure_coalesced body) Hv).
    destruct (cache_get _ _); [done|].
    destruct (request_prompt r); [right; by eexists | by left].
  - left. split; [done|]. by rewrite (begin_invalid cache body r (destructure_coalesced body) Hv).
Qed.

Lemma resume_cases cache key outcome :
  explain_sql_resume cache key outcome = (cache, failed)
  ∨ ∃ e, truthy (Some e) = true
         ∧ explain_sql_resume cache key outcome = (save_to_cache key e cache, fresh_reply e).
Proof.
  destruct outcome as [completion|err]; [|by left]. simpl.
  destruct (message_content completion) as [content|]; [|by left].
  right. eexists. split; [|done]. apply or_default_truthy, placeholder_truthy.
Qed.

(** The store after one request: as before, or with one saved entry. *)
Lemma explain_sql_store service cache body :
  (explain_sql service cache body).1.1 = cache
  ∨ ∃ key e, key_of_body body = Some key ∧ truthy (Some e) = true
             ∧ (explain_sql service cache body).1.1 = save_to_cache key e cache.
Proof.
  unfold explain_sql.
  destruct (begin_cases cache body) as [[_ ->]|(key & Hkey & Hb)]; [by left|].
  destruct (cache_get key cache).
  - rewrite Hb. by left.
  - destruct Hb as [->|[call ->]]; [by left|].
    destruct (resume_cases cache key (service call)) as [->|(e & He & ->)]; [by left|].
    right. by exists key, e.
Qed.

Lemma handle_request_store service cache req :
  (handle_request service cache req).1.1 = cache
  ∨ ∃ key e q c t g, q ≠ [] ∧ key = deriveKey (Some (JStr q)) c t g
        ∧ truthy (Some e) = true
        ∧ (handle_request service cache req).1.1 = save_to_cache key e cache.
Proof.
  destruct req as [|body]; [by left|]. simpl.
  destruct (explain_sql_store service cache body) as [?|(key & e & Hkey & He & Hs)];
    [by left|].
  right. apply key_of_body_shape in Hkey as (q & Hq & _ & Hkey).
  by eexists key, e, q, _, _, _.
Qed.

Lemma serve_trace_snoc trace step cache :
  serve_trace (trace ++ [step]) cache = (handle_request (snd step) (serve_trace trace cache) (fst step)).1.1.
Proof. unfold serve_trace. by rewrite foldl_app. Qed.

(** [X1] Whatever requests arrive and however the service answers, a store
    that holds at most 1000 entries (the empty store of a fresh process
    for one) holds at most 1000 entries after every request. *)
Theorem store_stays_bounded
    (trace : list (http_request * (chat_request → settled))) (cache : store) :
  (cache_size cache ≤ 1000)%nat →
  (cache_size (serve_trace trace cache) ≤ 1000)%nat.
Proof.
  change 1000%nat with cache_limit. intros Hsmall.
  induction trace as [|step trace IH] using rev_ind; [done|].
  rewrite serve_trace_snoc.
  destruct (handle_request_store (snd step) (serve_trace trace cache) (fst step))
    as [->|(key & e & _ & _ & _ & _ & _ & _ & _ & ->)]; [done|].
  apply enforce_bound_size.
Qed.

Lemma store_stays_bounded_witness :
  (cache_size (serve_trace [(PostExplainSql select_1_only, no_choices); (GetRoot, always_rejects);
                    (PostExplainSql (select_1_body "d"), no_choices)] ∅) ≤ 1000)%nat.
Proof.
  apply store_stays_bounded. unfold cache_size. rewrite map_size_empty.
  apply Nat.le_0_l.
Defined.

(** [X2] Every entry the handler ever puts in the store has the key of a
    request with a non-empty [sql] string and a truthy value: if that holds
    of the store (as it does of the empty one), it holds after any
    requests. A cache hit therefore never answers with an empty, [null],
    [false] or zero explanation. *)
Theorem store_entries_wellformed
    (trace : list (http_request * (chat_request → settled))) (cache : store) :
  map_Forall entry_ok cache →
  map_Forall entry_ok (serve_trace trace cache)
  ∧ ∀ service body e,
      (handle_request service (serve_trace trace cache) (PostExplainSql body)).1.2 = cached_reply e →
      truthy (Some e) = true.
Proof.
  intros Hok.
  assert (map_Forall entry_ok (serve_trace trace cache)) as Hrun.
  { induction trace as [|step trace IH] using rev_ind; [done|].
    rewrite serve_trace_snoc.
    destruct (handle_request_store (snd step) (serve_trace trace cache) (fst step))
      as [->|(key & e & q & c & t & g & Hq & Hkey & He & ->)]; [done|].
    unfold save_to_cache, enforce_bound. case_decide; [apply map_Forall_empty|].
    apply map_Forall_insert_2; [|done]. split; [done|]. by exists q, c, t, g. }
  split; [done|]. intros service body e. simpl. unfold explain_sql.
  destruct (begin_cases (serve_trace trace cache) body) as [[_ ->]|(key & Hkey & Hb)]; [done|].
  destruct (cache_get key (serve_trace trace cache)) as [e'|] eqn:Hget.
  - rewrite Hb. simpl. intros [= <-]. by apply (Hrun key e').
  - destruct Hb as [->|[call ->]]; [done|].
    destruct (resume_cases (serve_trace trace cache) key (service call)) as [->|(e' & _ & ->)];
      done.
Qed.

Lemma store_entries_wellformed_witness :
  map_Forall entry_ok
    (serve_trace [(PostExplainSql select_1_only, no_choices); (GetRoot, always_rejects)] ∅).
Proof.
  exact (proj1 (store_entries_wellformed
                  [(PostExplainSql select_1_only, no_choices); (GetRoot, always_rejects)]
                  ∅ (map_Forall_empty _))).
Defined.

(** [X3] Every request to the explain route ends in one of four ways, and
    in no other: the 400 of a failed validation; a 200 with the stored
    explanation and [cached: true]; the generic 500; or a 200 with a fresh,
    truthy explanation. Only the last changes the store (one save under the
    derived key), only the last two can follow a call to the service, and
    no request calls it twice. *)
Theorem handler_contract
    (service : chat_request → settled) (cache cache' : store) (body : value)
    (reply : response) (calls : list chat_request) :
  explain_sql service cache body = (cache', reply, calls) →
  (reply = bad_request ∧ key_of_body body = None ∧ cache' = cache ∧ calls = [])
  ∨ (∃ key e, reply = cached_reply e ∧ key_of_body body = Some key
              ∧ cache_get key cache = Some e ∧ cache' = cache ∧ calls = [])
  ∨ (∃ key, reply = failed ∧ key_of_body body = Some key ∧ cache_get key cache = None
            ∧ cache' = cache ∧ (length calls ≤ 1)%nat)
  ∨ (∃ key e call, reply = fresh_reply e ∧ key_of_body body = Some key
                   ∧ cache_get key cache = None ∧ truthy (Some e) = true
                   ∧ cache' = save_to_cache key e cache ∧ calls = [call]).
Proof.
  unfold explain_sql.
  destruct (begin_cases cache body) as [[Hkey ->]|(key & Hkey & Hb)].
  - intros [= <- <- <-]. by left.
  - destruct (cache_get key cache) as [e|] eqn:Hget.
    + rewrite Hb. intros [= <- <- <-]. right. left. by exists key, e.
    + destruct Hb as [->|[call ->]].
      * intros [= <- <- <-]. right. right. left. exists key. simpl. eauto 10.
      * destruct (resume_cases cache key (service call)) as [->|(e & He & ->)];
          intros [= <- <- <-].
        -- right. right. left. exists key. simpl. eauto 10.
        -- right. right. right. by exists key, e, call.
Qed.

Lemma handler_contract_witness :
  ∃ key e call,
    fresh_reply (JStr placeholder) = fresh_reply e
    ∧ key_of_body select_1_only = Some key
    ∧ cache_get key ∅ = None ∧ truthy (Some e) = true
    ∧ (explain_sql no_choices ∅ select_1_only).1.1 = save_to_cache key e ∅
    ∧ (explain_sql no_choices ∅ select_1_only).2 = [call].
Proof.
  assert (explain_sql no_choices ∅ select_1_only
          = ((explain_sql no_choices ∅ select_1_only).1.1, fresh_reply (JStr placeholder),
             (explain_sql no_choices ∅ select_1_only).2)) as Hrun by reflexivity.
  destruct (handler_contract no_choices ∅ _ select_1_only _ _ Hrun)
    as [(H & _)|[(key & e & H & _)|[(key & H & _)|H]]]; try discriminate H.
  exact H.
Defined.

(** [X4] A [description] that is truthy but neither a string nor an array
    (a number, [true], an object) has no [slice] to call: on a cache miss
    the request ends in the generic 500 with no call to the service and the
    store unchanged, although its [sql] is valid; on a hit the same body is
    answered from the store, because the lookup comes before the prompt is
    built. *)
Theorem description_without_slice
    (service : chat_request → settled) (cache : store) (body : value)
    (key : jsstring) (d : json) :
  key_of_body body = Some key →
  body_property body (lit "description") = Some d →
  truthy (Some d) = true →
  slice_0_500 d = None →
  explain_sql service cache body =
    match cache_get key cache with
    | Some e => (cache, cached_reply e, [])
    | None => (cache, failed, [])
    end.
Proof.
  intros Hkey Hd Htruthy Hslice.
  unfold key_of_body in Hkey. rewrite destructure_coalesced in Hkey.
  cbn [mbind option_bind] in Hkey.
  destruct (validates _) eqn:Hv in Hkey; [|done]. injection Hkey as Hkey.
  unfold explain_sql.
  rewrite (begin_valid cache body _ (destructure_coalesced body) Hv), Hkey.
  destruct (cache_get key cache); [done|].
  apply validates_true in Hv as (q & Hq & _). cbn [sql] in Hq.
  unfold request_prompt. cbn [sql challengeId title description gradeStatus].
  rewrite Hq, Hd. unfold userPrompt, description_text.
  assert (or_default (Some d) (JStr []) = d) as ->.
  { unfold or_default. by rewrite Htruthy. }
  rewrite Hslice.
  destruct (ToString (or_default (body_property body (lit "challengeId")) _)); [|done].
  destruct (ToString (or_default (body_property body (lit "title")) _)); done.
Qed.

Lemma description_without_slice_witness :
  explain_sql no_choices ∅
    (Some (JObj [(lit "sql", JStr (lit "SELECT 1"));
                 (lit "description", JNum (NumFinite (lit "5")))]))
  = (∅, failed, [])
  ∧ explain_sql no_choices {[ select_1_only_key := JStr placeholder ]}
      (Some (JObj [(lit "sql", JStr (lit "SELECT 1"));
                   (lit "description", JNum (NumFinite (lit "5")))]))
    = ({[ select_1_only_key := JStr placeholder ]}, cached_reply (JStr placeholder), []).
Proof.
  pose proof (λ cache,
    description_without_slice no_choices cache
      (Some (JObj [(lit "sql", JStr (lit "SELECT 1"));
                   (lit "description", JNum (NumFinite (lit "5")))]))
      select_1_only_key (JNum (NumFinite (lit "5"))) eq_refl eq_refl eq_refl eq_refl)
    as Hrun.
  split.
  - exact (Hrun ∅).
  - specialize (Hrun {[ select_1_only_key := JStr placeholder ]}).
    unfold cache_get in Hrun. rewrite lookup_singleton_eq in Hrun. exact Hrun.
Defined.





(** [X7] Saving under a key that is already in a store of at most 1000
    entries overwrites that entry in place: the count does not change, the
    bound check does not fire and every other entry stays. *)
Theorem resave_keeps_store (k : jsstring) (v : json) (cache : store) :
  is_Some (cache_get k cache) →
  (cache_size cache ≤ 1000)%nat →
  save_to_cache k v cache = cache_set k v cache
  ∧ cache_size (save_to_cache k v cache) = cache_size cache
  ∧ cache_get k (save_to_cache k v cache) = Some v
  ∧ ∀ k', k' ≠ k → cache_get k' (save_to_cache k v cache) = cache_get k' cache.
Proof.
  change 1000%nat with cache_limit. intros [v0 Hk] Hsmall.
  assert (cache_size (cache_set k v cache) = cache_size cache) as Hsize.
  { unfold cache_size, cache_set. apply map_size_insert_Some. by exists v0. }
  assert (save_to_cache k v cache = cache_set k v cache) as ->.
  { unfold save_to_cache. apply enforce_bound_small. by rewrite Hsize. }
  split; [done|]. split; [done|]. split; [apply cache_set_then_get|].
  intros k' Hne. unfold cache_get, cache_set. by apply lookup_insert_ne.
Qed.

Lemma resave_keeps_store_witness :
  save_to_cache select_1_key (JStr (lit "new")) {[ select_1_key := JStr (lit "old") ]}
  = cache_set select_1_key (JStr (lit "new")) {[ select_1_key := JStr (lit "old") ]}.
Proof.
  refine (proj1 (resave_keeps_store select_1_key (JStr (lit "new"))
                   {[ select_1_key := JStr (lit "old") ]} _ _)).
  - unfold cache_get. rewrite lookup_singleton_eq. by eexists.
  - unfold cache_size. rewrite map_size_singleton. lia.
Defined.

(** [X6] Two requests for the same key that both reach their [await]
    before either resumes both missed and both call the service. Each is
    answered with its own explanation and without [cached]; when both have
    resumed, the store holds the explanation of the one that resumed last.
    If the first save left at most 1000 entries, the second overwrites it
    and adds no entry; if the first save made 1001 and cleared the store,
    the second leaves a store of that one entry. *)
Theorem interleaved_requests_last_writer_wins
    (cache : store) (body : value) (key : jsstring) (call : chat_request)
    (cA cB contentA contentB : value) :
  explain_sql_begin cache body = AwaitCompletion key call →
  message_content cA = Some contentA →
  message_content cB = Some contentB →
  let eA := or_default contentA (JStr placeholder) in
  let eB := or_default contentB (JStr placeholder) in
  let after_A := explain_sql_resume cache key (Resolved cA) in
  let after_B := explain_sql_resume after_A.1 key (Resolved cB) in
  after_A.2 = fresh_reply eA
  ∧ after_B.2 = fresh_reply eB
  ∧ cache_get key after_B.1 = Some eB
  ∧ ((cache_size (cache_set key eA cache) ≤ 1000)%nat →
       after_B.1 = cache_set key eB cache
       ∧ cache_size after_B.1 = cache_size after_A.1)
  ∧ ((1000 < cache_size (cache_set key eA cache))%nat →
       after_A.1 = ∅
       ∧ after_B.1 = cache_set key eB ∅
       ∧ cache_size after_A.1 = 0%nat
       ∧ cache_size after_B.1 = 1%nat).
Proof.
  change 1000%nat with cache_limit.
  intros Hbegin HA HB eA eB after_A after_B.
  apply begin_await_key in Hbegin as [_ Hmiss].
  assert (after_A = (save_to_cache key eA cache, fresh_reply eA)) as HafterA.
  { unfold after_A, eA. simpl. by rewrite HA. }
  assert (after_B = (save_to_cache key eB after_A.1, fresh_reply eB)) as HafterB.
  { unfold after_B, eB. simpl. by rewrite HB. }
  rewrite HafterB. rewrite HafterA. cbn [fst snd].
  split; [done|]. split; [done|].
  assert (save_to_cache key eB ∅ = cache_set key eB ∅) as Hone.
  { unfold save_to_cache. apply enforce_bound_small.
    unfold cache_set, cache_size, cache_limit.
    rewrite insert_empty, map_size_singleton. lia. }
  destruct (decide (cache_limit < cache_size (cache_set key eA cache))%nat) as [Hover|Hfits].
  - rewrite (save_to_cache_overflow key eA cache Hover), Hone.
    split; [apply cache_set_then_get|]. split; [lia|]. intros _.
    split; [done|]. split; [done|]. unfold cache_size, cache_set.
    rewrite map_size_empty, insert_empty, map_size_singleton. done.
  - assert (save_to_cache key eA cache = cache_set key eA cache) as ->.
    { unfold save_to_cache. apply enforce_bound_small. lia. }
    assert (cache_set key eB (cache_set key eA cache) = cache_set key eB cache) as Hset.
    { unfold cache_set. apply insert_insert_eq. }
    assert (cache_size (cache_set key eB cache) = cache_size (cache_set key eA cache))
      as Hsize.
    { rewrite !cache_set_size_fresh by exact Hmiss. done. }
    assert (save_to_cache key eB (cache_set key eA cache) = cache_set key eB cache) as ->.
    { unfold save_to_cache. rewrite Hset. apply enforce_bound_small. rewrite Hsize. lia. }
    split; [apply cache_set_then_get|]. split; [intros _; by split | lia].
Qed.

Lemma interleaved_requests_last_writer_wins_witness :
  cache_get select_1_only_key
    (explain_sql_resume
       (explain_sql_resume ∅ select_1_only_key
          (Resolved (Some (JObj [(lit "choices", JArr [])])))).1
       select_1_only_key
       (Resolved (Some (JObj [(lit "choices",
          JArr [JObj [(lit "message", JObj [(lit "content", JStr (lit "second"))])]])])))).1
  = Some (JStr (lit "second")).
Proof.
  exact (proj1 (proj2 (proj2
    (interleaved_requests_last_writer_wins ∅ select_1_only select_1_only_key _
       (Some (JObj [(lit "choices", JArr [])]))
       (Some (JObj [(lit "choices",
          JArr [JObj [(lit "message", JObj [(lit "content", JStr (lit "second"))])]])]))
       undefined (Some (JStr (lit "second"))) eq_refl eq_refl eq_refl)))).
Defined.

Lemma or_default_same (a b : value) (d : json) :
  same_or_both_falsy a b → or_default a d = or_default b d.
Proof.
  intros [->|[Ha Hb]]; [done|]. unfold or_default.
  destruct a, b; rewrite ?Ha, ?Hb; done.
Qed.

(** When the handler reaches its [await], the call carries the prompt built
    from the body. *)
Lemma begin_await_prompt cache body key call :
  explain_sql_begin cache body = AwaitCompletion key call →
  ∃ q prompt,
    body_property body (lit "sql") = Some (JStr q)
    ∧ userPrompt q (body_property body (lit "challengeId"))
        (body_property body (lit "title")) (body_property body (lit "description"))
        (body_property body (lit "gradeStatus")) = Some prompt
    ∧ call = completion_call prompt.
Proof.
  unfold explain_sql_begin. rewrite destructure_coalesced.
  set (r := Build_request _ _ _ _ _).
  destruct (validates r); cbn [negb]; [|done].
  destruct (cache_get (request_key r) cache); [done|].
  unfold request_prompt. cbn [sql challengeId title description gradeStatus r].
  destruct (body_property body (lit "sql")) as [[| | |q| |]|]; try done.
  destruct (userPrompt q _ _ _ _) as [prompt|] eqn:Hprompt; [|done].
  intros [= _ <-]. by exists q, prompt.
Qed.

(** [X8] The prompt does not tell a missing optional field from a falsy
    one: two requests with the same [sql] whose [challengeId], [title],
    [description] and [gradeStatus] are pairwise equal or both falsy
    (absent, [null], [false], [0], the empty string) send the very same
    call to the service whenever both reach it. *)
Theorem falsy_fields_use_defaults
    (cache1 cache2 : store) (body1 body2 : value) (key1 key2 : jsstring)
    (call1 call2 : chat_request) :
  body_property body1 (lit "sql") = body_property body2 (lit "sql") →
  same_or_both_falsy (body_property body1 (lit "challengeId"))
                     (body_property body2 (lit "challengeId")) →
  same_or_both_falsy (body_property body1 (lit "title"))
                     (body_property body2 (lit "title")) →
  same_or_both_falsy (body_property body1 (lit "description"))
                     (body_property body2 (lit "description")) →
  same_or_both_falsy (body_property body1 (lit "gradeStatus"))
                     (body_property body2 (lit "gradeStatus")) →
  explain_sql_begin cache1 body1 = AwaitCompletion key1 call1 →
  explain_sql_begin cache2 body2 = AwaitCompletion key2 call2 →
  call1 = call2.
Proof.
  intros Hsql Hid Htitle Hdescr Hgrade
    (q1 & p1 & Hq1 & Hp1 & ->)%begin_await_prompt
    (q2 & p2 & Hq2 & Hp2 & ->)%begin_await_prompt.
  rewrite Hsql, Hq2 in Hq1. injection Hq1 as <-.
  unfold userPrompt, description_text in Hp1, Hp2.
  rewrite (or_default_same _ _ _ Hid), (or_default_same _ _ _ Htitle),
    (or_default_same _ _ _ Hdescr), (or_default_same _ _ _ Hgrade) in Hp1.
  rewrite Hp1 in Hp2. by injection Hp2 as ->.
Qed.

Lemma falsy_fields_use_defaults_witness :
  match explain_sql_begin ∅ select_1_only, explain_sql_begin ∅ falsy_fields_body with
  | AwaitCompletion key1 call1, AwaitCompletion key2 call2 => call1 = call2 ∧ key1 ≠ key2
  | _, _ => False
  end.
Proof.
  assert (∃ call1, explain_sql_begin ∅ select_1_only
                   = AwaitCompletion select_1_only_key call1) as [call1 H1]
    by (eexists; reflexivity).
  assert (∃ call2, explain_sql_begin ∅ falsy_fields_body
                   = AwaitCompletion
                       (deriveKey (Some (JStr (lit "SELECT 1"))) (Some JNull)
                          (Some (JStr [])) (Some (JBool false))) call2) as [call2 H2]
    by (eexists; reflexivity).
  pose proof (falsy_fields_use_defaults ∅ ∅ select_1_only falsy_fields_body _ _ _ _
                eq_refl (or_intror (conj eq_refl eq_refl)) (or_intror (conj eq_refl eq_refl))
                (or_introl eq_refl) (or_intror (conj eq_refl eq_refl)) H1 H2) as Hcall.
  rewrite H1, H2. split; [exact Hcall|]. by vm_compute.
Defined.

(** [X9] Every call the handler makes to the service has the same model,
    system prompt, temperature (0.3) and token limit (400), and a user
    prompt that opens with the request's [sql] text as it was sent, whole
    and unescaped, under the [SQL query:] heading. *)
Theorem every_call_embeds_sql
    (cache : store) (body : value) (key : jsstring) (call : chat_request) :
  explain_sql_begin cache body = AwaitCompletion key call →
  model call = lit "gpt-4o-mini"
  ∧ system_content call = systemPrompt
  ∧ temperature_tenths call = 3
  ∧ max_tokens call = 400
  ∧ ∃ q rest,
      body_property body (lit "sql") = Some (JStr q)
      ∧ user_content call =
          nl ++ lit "SQL query:" ++ nl ++ q ++ nl ++ nl ++ lit "Challenge context:" ++ rest.
Proof.
  intros (q & prompt & Hq & Hprompt & ->)%begin_await_prompt.
  repeat (split; [done|]). exists q.
  unfold userPrompt in Hprompt.
  destruct (ToString (or_default (body_property body (lit "challengeId")) _))
    as [id_text|]; [|done].
  destruct (ToString (or_default (body_property body (lit "title")) _))
    as [title_text|]; [|done].
  destruct (description_text _) as [descr|]; [|done].
  destruct (ToString (or_default (body_property body (lit "gradeStatus")) _))
    as [grade|]; [|done].
  cbn [mbind option_bind] in Hprompt. injection Hprompt as <-.
  eexists. split; [done|]. cbn [user_content completion_call]. reflexivity.
Qed.

Lemma every_call_embeds_sql_witness :
  ∃ call q rest,
    explain_sql_begin ∅ select_1_only = AwaitCompletion select_1_only_key call
    ∧ body_property select_1_only (lit "sql") = Some (JStr q)
    ∧ user_content call =
        nl ++ lit "SQL query:" ++ nl ++ q ++ nl ++ nl ++ lit "Challenge context:" ++ rest.
Proof.
  assert (∃ call, explain_sql_begin ∅ select_1_only
                  = AwaitCompletion select_1_only_key call) as [call Hbegin]
    by (eexists; reflexivity).
  destruct (every_call_embeds_sql ∅ select_1_only select_1_only_key call Hbegin)
    as (_ & _ & _ & _ & q & rest & Hq & Hprompt).
  by exists call, q, rest.
Defined.

(** [X10] When the first choice of a resolved completion carries a
    non-empty string as its message content, that string is the
    explanation: it is what the response carries and what is saved under
    the key, whatever else the completion holds. *)
Theorem first_choice_is_returned
    (cache : store) (key : jsstring) (completion choice message : json)
    (others : list json) (text : jsstring) :
  get_property completion (lit "choices") = Some (JArr (choice :: others)) →
  get_property choice (lit "message") = Some message →
  get_property message (lit "content") = Some (JStr text) →
  text ≠ [] →
  explain_sql_resume cache key (Resolved (Some completion))
  = (save_to_cache key (JStr text) cache, fresh_reply (JStr text)).
Proof.
  intros Hchoices Hmessage Hcontent Htext.
  assert (message_content (Some completion) = Some (Some (JStr text))) as Hmc.
  { unfold message_content.
    destruct completion as [| | | | |cm]; try (cbn in Hchoices; discriminate).
    rewrite Hchoices. cbn [optional_chain get_index_0 head].
    destruct choice as [| | | | |chm]; try (cbn in Hmessage; discriminate).
    rewrite Hmessage. cbn [optional_chain].
    destruct message as [| | | | |mm]; try (cbn in Hcontent; discriminate).
    by rewrite Hcontent. }
  unfold explain_sql_resume. rewrite Hmc.
  assert (or_default (Some (JStr text)) (JStr placeholder) = JStr text) as ->; [|done].
  unfold or_default. cbn [truthy]. unfold jsstring_eqb.
  by rewrite bool_decide_eq_false_2.
Qed.

Lemma first_choice_is_returned_witness :
  explain_sql_resume ∅ select_1_only_key
    (Resolved (Some (JObj [(lit "id", JStr (lit "chatcmpl-1"));
        (lit "choices",
         JArr [JObj [(lit "index", JNum (NumFinite (lit "0")));
                     (lit "message", JObj [(lit "role", JStr (lit "assistant"));
                                           (lit "content", JStr (lit "It selects one."))])]])])))
  = (save_to_cache select_1_only_key (JStr (lit "It selects one.")) ∅,
     fresh_reply (JStr (lit "It selects one."))).
Proof.
  apply (first_choice_is_returned ∅ select_1_only_key _
           (JObj [(lit "index", JNum (NumFinite (lit "0")));
                  (lit "message", JObj [(lit "role", JStr (lit "assistant"));
                                        (lit "content", JStr (lit "It selects one."))])])
           (JObj [(lit "role", JStr (lit "assistant"));
                  (lit "content", JStr (lit "It selects one."))])
           [] (lit "It selects one.")); try reflexivity.
  by vm_compute.
Defined.

(** [X11] The process serves requests only with a non-empty
    [OPENAI_API_KEY]: unset or empty, it exits with code 1 whatever else
    the environment holds. Otherwise it starts with an empty store and
    listens on [PORT] when that is set and non-empty, and on 3000 when it
    is not. *)
Theorem startup_requires_key (env : gmap jsstring jsstring) :
  (startup env = Exit 1 ↔
     env !! lit "OPENAI_API_KEY" = None ∨ env !! lit "OPENAI_API_KEY" = Some [])
  ∧ ∀ port cache,
      startup env = Listen port cache →
      cache = ∅
      ∧ port = match env !! lit "PORT" with
               | Some (c :: p) => JStr (c :: p)
               | _ => JNum (NumFinite (lit "3000"))
               end.
Proof.
  unfold startup. destruct (env !! lit "OPENAI_API_KEY") as [[|c k]|] eqn:Hkey.
  - split; [split; [auto | done]|]. done.
  - split.
    + split; [done|]. by intros [?|?].
    + intros port cache [= <- <-]. split; [done|].
      by destruct (env !! lit "PORT") as [[|c' p]|].
  - split; [split; [auto | done]|]. done.
Qed.

(** The key of a request with a string [sql] opens with that string,
    quoted. *)
Lemma deriveKey_opens_with_sql (q : jsstring) (c t g : value) :
  ∃ rest,
    deriveKey (Some (JStr q)) c t g
    = 123 :: QuoteJSONString (lit "sql") ++ 58 :: QuoteJSONString q ++ rest.
Proof.
  unfold deriveKey, JSON_stringify_object.
  change (omap serialize_member
            [(lit "sql", Some (JStr q)); (lit "challengeId", c); (lit "title", t);
             (lit "gradeStatus", g)])
    with ((QuoteJSONString (lit "sql") ++ 58 :: QuoteJSONString q)
          :: omap serialize_member
               [(lit "challengeId", c); (lit "title", t); (lit "gradeStatus", g)]).
  rewrite join_comma_cons. eexists.
  rewrite <- !app_assoc. cbn [app]. rewrite <- ?app_assoc. reflexivity.
Qed.

(** [X12] The key pins the [sql] text, whatever the other fields hold
    (numbers included): two requests that derive the same key have the same
    [sql], so a cache hit never answers with the explanation of another
    query text. *)
Theorem same_key_same_sql (body1 body2 : value) (key : jsstring) :
  key_of_body body1 = Some key →
  key_of_body body2 = Some key →
  body_property body1 (lit "sql") = body_property body2 (lit "sql").
Proof.
  intros (q1 & _ & Hq1 & Hk1)%key_of_body_shape (q2 & _ & Hq2 & Hk2)%key_of_body_shape.
  rewrite Hq1, Hq2. do 2 f_equal.
  destruct (deriveKey_opens_with_sql q1 (body_property body1 (lit "challengeId"))
              (body_property body1 (lit "title")) (body_property body1 (lit "gradeStatus")))
    as [rest1 H1].
  destruct (deriveKey_opens_with_sql q2 (body_property body2 (lit "challengeId"))
              (body_property body2 (lit "title")) (body_property body2 (lit "gradeStatus")))
    as [rest2 H2].
  rewrite H1 in Hk1. rewrite H2 in Hk2. rewrite Hk1 in Hk2.
  injection Hk2 as Hk2. apply (f_equal (cons 34)) in Hk2.
  change (QuoteJSONString q1 ++ rest1 = QuoteJSONString q2 ++ rest2) in Hk2.
  by apply QuoteJSONString_prefix in Hk2 as [-> _].
Qed.

Lemma same_key_same_sql_witness :
  body_property
    (Some (JObj [(lit "sql", JStr (lit "SELECT 1"));
                 (lit "challengeId", JNum (NumInfinity false))])) (lit "sql")
  = body_property
      (Some (JObj [(lit "sql", JStr (lit "SELECT 1")); (lit "challengeId", JNull)]))
      (lit "sql").
Proof.
  apply (same_key_same_sql
           (Some (JObj [(lit "sql", JStr (lit "SELECT 1"));
                        (lit "challengeId", JNum (NumInfinity false))]))
           (Some (JObj [(lit "sql", JStr (lit "SELECT 1")); (lit "challengeId", JNull)]))
           (deriveKey (Some (JStr (lit "SELECT 1"))) (Some JNull) None None));
    reflexivity.
Defined.

(** [X13] Health checks are inert: taking them out of any sequence of
    requests leaves the store the sequence ends with, and with it every
    later answer of the explain route, as it was. *)
Theorem health_checks_are_inert
    (trace : list (http_request * (chat_request → settled))) (cache : store) :
  serve_trace trace cache = serve_trace (List.filter is_explain_request trace) cache
  ∧ ∀ service, handle_request service cache GetRoot = (cache, health, []).
Proof.
  split; [|done]. revert cache.
  induction trace as [|[[|body] service] trace IH]; intros cache; [done| |].
  - cbn [List.filter is_explain_request fst]. apply IH.
  - cbn [List.filter is_explain_request fst]. apply IH.
Qed.

(** [X14] A request never removes or alters a single entry: after it, the
    store is empty (the bound check cleared everything) or still holds
    every entry it held before, unchanged. *)
Theorem entries_only_vanish_together
    (service : chat_request → settled) (cache : store) (req : http_request) :
  (handle_request service cache req).1.1 = ∅
  ∨ cache ⊆ (handle_request service cache req).1.1.
Proof.
  destruct req as [|body]; [by right|]. cbn [handle_request]. unfold explain_sql.
  destruct (begin_cases cache body) as [[_ ->]|(key & Hkey & Hb)]; [by right|].
  destruct (cache_get key cache) eqn:Hget.
  - rewrite Hb. by right.
  - destruct Hb as [->|[call ->]]; [by right|].
    destruct (resume_cases cache key (service call)) as [->|(e & _ & ->)]; [by right|].
    cbn [fst]. unfold save_to_cache, enforce_bound, cache_clear.
    case_decide; [by left|]. right. unfold cache_set. by apply insert_subseteq.
Qed.
